(** * Conjugation search service: chunker, snapshot cache, initializer, search

    A shallow embedding of [app_fastapi.py].  Python [str] values are
    sequences of Unicode code points; a pandas cell is either missing
    ([NaN]) or present with a textual rendering; module-level globals are
    fields of a [State] record threaded through a small state-and-exception
    monad.  Wall-clock readings of [time.time()] are rationals. *)

From Stdlib Require Import String Ascii.
From Stdlib Require Import List Arith Bool NArith QArith Lia.
From Equations Require Import Equations.
Import ListNotations.

Close Scope Q_scope.
Local Open Scope string_scope.
Local Open Scope nat_scope.
Local Open Scope list_scope.

(** ** Text *)

(** A character is a Unicode code point, a Python [str] a list of them. *)
Definition char := N.
Definition pystr := list char.

(** ASCII literals of the source, written as Rocq strings. *)
Definition py (s : string) : pystr :=
  map N_of_ascii (list_ascii_of_string s).

Definition hyphen : char := 45%N.
Definition underscore : char := 95%N.
Definition newline : char := 10%N.

Definition is_ascii (c : char) : bool := (c <? 128)%N.

Definition ascii_isalnum (c : char) : bool :=
  ((48 <=? c) && (c <=? 57) || (65 <=? c) && (c <=? 90)
   || (97 <=? c) && (c <=? 122))%N.

Definition ascii_isspace (c : char) : bool :=
  ((9 <=? c) && (c <=? 13) || (28 <=? c) && (c <=? 32))%N.

Definition ascii_lower (c : char) : char :=
  if ((65 <=? c) && (c <=? 90))%N then (c + 32)%N else c.

(** What the interpreter and its libraries decide outside the ASCII range
    (the Unicode character database) and the part of the regular
    expression engine that handles patterns with special characters. *)
Class PyRuntime := {
  unicode_isalnum : char -> bool;
  unicode_isspace : char -> bool;
  unicode_lower : pystr -> pystr;
  regex_engine : pystr -> option (pystr -> bool)
}.

(** A runtime for closed evaluations on ASCII text with literal patterns:
    none of its fields is consulted there. *)
Definition ascii_runtime : PyRuntime := {|
  unicode_isalnum := fun _ => false;
  unicode_isspace := fun _ => false;
  unicode_lower := fun s => s;
  regex_engine := fun _ => None
|}.

Fixpoint list_eqb (a b : pystr) : bool :=
  match a, b with
  | [], [] => true
  | x :: a', y :: b' => (x =? y)%N && list_eqb a' b'
  | _, _ => false
  end.

(** [prefix_of p s]: [s.startswith(p)]. *)
Fixpoint prefix_of (p s : pystr) : bool :=
  match p, s with
  | [], _ => true
  | x :: p', y :: s' => (x =? y)%N && prefix_of p' s'
  | _ :: _, [] => false
  end.

(** [contains p s]: the Python test [p in s]. *)
Fixpoint contains (p s : pystr) : bool :=
  prefix_of p s ||
  match s with
  | [] => false
  | _ :: s' => contains p s'
  end.

(** [s.strip(chars)] for a character class given as a predicate. *)
Fixpoint lstrip (drop : char -> bool) (s : pystr) : pystr :=
  match s with
  | [] => []
  | c :: s' => if drop c then lstrip drop s' else s
  end.

Definition rstrip (drop : char -> bool) (s : pystr) : pystr :=
  rev (lstrip drop (rev s)).

Definition strip_with (drop : char -> bool) (s : pystr) : pystr :=
  rstrip drop (lstrip drop s).

Section Text.
Context {rt : PyRuntime}.

(** [\w] of a [str] pattern. *)
Definition is_word (c : char) : bool :=
  if is_ascii c then ascii_isalnum c || (c =? underscore)%N
  else unicode_isalnum c.

(** [\s] of a [str] pattern, also the class [str.strip()] removes. *)
Definition is_space (c : char) : bool :=
  if is_ascii c then ascii_isspace c else unicode_isspace c.

(** [s.lower()]. *)
Definition str_lower (s : pystr) : pystr :=
  if forallb is_ascii s then map ascii_lower s else unicode_lower s.

(** [s.strip()]. *)
Definition str_strip (s : pystr) : pystr := strip_with is_space s.

(** [re.sub(r'[^\w\s-]', '', s)]. *)
Definition remove_non_word (s : pystr) : pystr :=
  filter (fun c => is_word c || is_space c || (c =? hyphen)%N) s.

Definition is_separator (c : char) : bool :=
  (c =? hyphen)%N || is_space c.

(** [re.sub(r'[-\s]+', '-', s)]: every maximal run of separators becomes
    one hyphen.  [in_run] tells that the previous character belonged to
    the run being replaced. *)
Fixpoint collapse_separators (in_run : bool) (s : pystr) : pystr :=
  match s with
  | [] => []
  | c :: s' =>
      if is_separator c then
        if in_run then collapse_separators true s'
        else hyphen :: collapse_separators true s'
      else c :: collapse_separators false s'
  end.

(** The three [base_slug] assignments of [split_data_into_chunks]. *)
Definition base_slug_of (title : pystr) : pystr :=
  let base_slug := remove_non_word (str_lower title) in
  let base_slug := collapse_separators false base_slug in
  strip_with (fun c => (c =? hyphen)%N) base_slug.

(** Special characters of the [re] pattern syntax. *)
Definition is_regex_special (c : char) : bool :=
  existsb (fun m => (c =? m)%N) (py ".^$*+?{}[]\|()").

(** [re.compile(pat)] followed by [regex.search(x) is not None]; [None]
    when the pattern does not compile.  A pattern without special
    characters matches exactly where it occurs as a substring. *)
Definition re_compile (pat : pystr) : option (pystr -> bool) :=
  if forallb (fun c => negb (is_regex_special c)) pat
  then Some (contains pat)
  else regex_engine pat.
End Text.

(** ** Data frames *)

Inductive Cell :=
| NaN
| Val (text : pystr).

(** [str(value)] of a cell. *)
Definition py_str (c : Cell) : pystr :=
  match c with
  | NaN => py "nan"
  | Val text => text
  end.

(** [pd.notna(value)]. *)
Definition notna (c : Cell) : bool :=
  match c with
  | NaN => false
  | Val _ => true
  end.

Definition Row := list Cell.

(** A frame as [pd.read_csv] builds it: a header with at least one column
    name ([read_csv] raises on input without columns) and the records in
    file order.  A record shorter than the header reads as [NaN] beyond
    its end, which is how [read_csv] pads short lines. *)
Record DataFrame := {
  first_column : pystr;
  other_columns : list pystr;
  rows : list Row
}.

(** [df.columns.tolist()]. *)
Definition columns (df : DataFrame) : list pystr :=
  first_column df :: other_columns df.

(** [len(df)]. *)
Definition len (df : DataFrame) : nat := length (rows df).

(** [df.iloc[start:stop]]. *)
Definition iloc_slice (df : DataFrame) (start stop : nat) : DataFrame :=
  {| first_column := first_column df;
     other_columns := other_columns df;
     rows := firstn (stop - start) (skipn start (rows df)) |}.

(** The two configured source paths. *)
Inductive Path :=
| VERB_CSV_PATH
| ADJECTIVE_CSV_PATH.

(** The two messages with which the program raises [FileNotFoundError]:
    "CSV file not found: <path>" and "No CSV files found. Checked: ...". *)
Inductive NotFoundMessage :=
| CsvFileNotFound (path : Path)
| NoCsvFilesFound.

Inductive Exception :=
| FileNotFoundError (msg : NotFoundMessage)
| ValueError
| IndexError
| ReError.

Inductive Outcome (A : Type) :=
| Return (a : A)
| Raise (e : Exception).
Arguments Return {A} a.
Arguments Raise {A} e.

(** [df.iloc[r, c]]: positions outside the frame raise [IndexError]. *)
Definition iloc (df : DataFrame) (r c : nat) : Outcome Cell :=
  match nth_error (rows df) r with
  | Some row =>
      if c <? length (columns df) then Return (nth c row NaN)
      else Raise IndexError
  | None => Raise IndexError
  end.

(** ** Chunker *)

Record Entry := {
  title : pystr;
  subtitle : pystr;
  slug : pystr;
  source : pystr;
  data : DataFrame;
  entry_columns : list pystr
}.

Definition clamp_end (df : DataFrame) (start_idx : nat) : nat :=
  let end_idx := start_idx + 4 in
  if len df <? end_idx then len df else end_idx.

Section Chunker.
Context {rt : PyRuntime}.

(** The dictionary appended for one non-empty [chunk_df]. *)
Definition make_chunk (df chunk_df : DataFrame) (source : pystr)
  : Outcome Entry :=
  match iloc chunk_df 0 0 with
  | Raise e => Raise e
  | Return title_value =>
      let title := str_strip (py_str title_value) in
      let subtitle : Outcome pystr :=
        if 1 <? length (columns chunk_df) then
          match iloc chunk_df 0 1 with
          | Raise e => Raise e
          | Return subtitle_value =>
              if notna subtitle_value
              then Return (str_strip (py_str subtitle_value))
              else Return []
          end
        else Return [] in
      match subtitle with
      | Raise e => Raise e
      | Return subtitle =>
          let base_slug := base_slug_of title in
          let slug :=
            match source with
            | [] => base_slug
            | _ :: _ => base_slug ++ hyphen :: source
            end in
          Return {| title := title;
                    subtitle := subtitle;
                    slug := slug;
                    source := source;
                    data := chunk_df;
                    entry_columns := columns df |}
      end
  end.

(** One pass of the [while] body: the new value of [chunks]. *)
Definition chunk_step (df : DataFrame) (source : pystr)
           (start_idx : nat) (chunks : list Entry)
  : Outcome (list Entry) :=
  let end_idx := clamp_end df start_idx in
  let chunk_df := iloc_slice df start_idx end_idx in
  if 0 <? len chunk_df then
    match make_chunk df chunk_df source with
    | Raise e => Raise e
    | Return entry => Return (chunks ++ [entry])
    end
  else Return chunks.

(** The loop [while start_idx < len(df)], with [start_idx] and [chunks]
    as its variables. *)
Equations? split_loop (df : DataFrame) (source : pystr)
           (start_idx : nat) (chunks : list Entry)
  : Outcome (list Entry) by wf (len df - start_idx) lt :=
  split_loop df source start_idx chunks with lt_dec start_idx (len df) => {
    | left _ with chunk_step df source start_idx chunks => {
        | Raise e => Raise e
        | Return chunks' =>
            split_loop df source (clamp_end df start_idx) chunks' }
    | right _ => Return chunks }.
Proof.
  unfold clamp_end. destruct (len df <? start_idx + 4) eqn:E; lia.
Qed.

Definition split_data_into_chunks (df : DataFrame) (source : pystr)
  : Outcome (list Entry) :=
  split_loop df source 0 [].
End Chunker.

(** ** Process state, environment and the monad of the handlers *)

Inductive Encoding :=
| utf_8
| utf_8_sig
| shift_jis
| cp932
| latin_1.

(** One attempt of [pd.read_csv(csv_path, encoding=encoding)]. *)
Inductive ReadResult :=
| Parsed (df : DataFrame)
| UnicodeDecodeError
| OtherReadError.

(** What the file system holds at a path: nothing, or a file together
    with what [pd.read_csv] makes of it under each encoding. *)
Inductive FileState :=
| Missing
| Present (read_csv : Encoding -> ReadResult).

(** The environment of one call: the file system, the reading of
    [time.time()] on entry to [get_all_chunks] and the reading taken by
    [_refresh_cache] when it installs a snapshot. *)
Record World := {
  file : Path -> FileState;
  current_time : Q;
  refresh_time : Q
}.

Inductive Level :=
| INFO
| WARNING
| ERROR.

Inductive Message :=
| CsvNotFound (path : Path)
| WorkingDirectory
| FilesInApp
| FailedEncoding (path : Path) (encoding : Encoding)
| FailedAnyEncoding (path : Path)
| ErrorLoadingCsv (path : Path)
| NotFoundSkipping (path : Path)
| NotFoundAt (path : Path)
| NoCsvFiles
| CacheRefreshed (n : nat)
| CacheRefreshFailed (e : Exception)
| UsingStaleCache (e : Exception)
| FailedToPreload (e : Exception).

(** Observable effects besides the globals: records handed to the logger
    (those at warning and error level, and the refresh notice at info
    level; [print] and [sys.stdout.write] repeat them) and the start of a
    background thread running [_refresh_cache]. *)
Inductive Event :=
| Log (level : Level) (msg : Message)
| ThreadStart.

Record State := {
  _cache_data : option (list Entry);
  _cache_timestamp : Q;
  _cache_loading : bool;
  _initialized : bool;
  journal : list Event
}.

(** The module as first imported. *)
Definition initial_state : State := {|
  _cache_data := None;
  _cache_timestamp := 0%Q;
  _cache_loading := false;
  _initialized := false;
  journal := []
|}.

Definition CACHE_TTL : Q := 600%Q.
Definition CACHE_REFRESH_THRESHOLD : Q := 540%Q.

Definition Qltb (x y : Q) : bool :=
  match (x ?= y)%Q with
  | Lt => true
  | _ => false
  end.

Definition set_cache (chunks : list Entry) (now : Q) (s : State) : State :=
  {| _cache_data := Some chunks;
     _cache_timestamp := now;
     _cache_loading := false;
     _initialized := _initialized s;
     journal := journal s |}.

Definition set_cache_loading (b : bool) (s : State) : State :=
  {| _cache_data := _cache_data s;
     _cache_timestamp := _cache_timestamp s;
     _cache_loading := b;
     _initialized := _initialized s;
     journal := journal s |}.

Definition set_initialized (b : bool) (s : State) : State :=
  {| _cache_data := _cache_data s;
     _cache_timestamp := _cache_timestamp s;
     _cache_loading := _cache_loading s;
     _initialized := b;
     journal := journal s |}.

Definition record (ev : Event) (s : State) : State :=
  {| _cache_data := _cache_data s;
     _cache_timestamp := _cache_timestamp s;
     _cache_loading := _cache_loading s;
     _initialized := _initialized s;
     journal := journal s ++ [ev] |}.

(** Computations over the globals that return or raise.  What a
    computation did to the state before raising stays done. *)
Definition Py (A : Type) : Type := State -> Outcome A * State.

Definition ret {A} (a : A) : Py A := fun s => (Return a, s).

Definition raise {A} (e : Exception) : Py A := fun s => (Raise e, s).

Definition bind {A B} (m : Py A) (k : A -> Py B) : Py B :=
  fun s =>
    match m s with
    | (Return a, s') => k a s'
    | (Raise e, s') => (Raise e, s')
    end.

Definition get : Py State := fun s => (Return s, s).

Definition modify (f : State -> State) : Py unit := fun s => (Return tt, f s).

Definition lift {A} (o : Outcome A) : Py A := fun s => (o, s).

(** [try: body except Exception as e: handler]. *)
Definition try_except {A} (body : Py A) (handler : Exception -> Py A) : Py A :=
  fun s =>
    match body s with
    | (Return a, s') => (Return a, s')
    | (Raise e, s') => handler e s'
    end.

Declare Scope py_scope.
Delimit Scope py_scope with py.
Notation "x <- m ;; k" := (bind m (fun x => k))
  (at level 100, m at next level, right associativity) : py_scope.
Notation "m ;; k" := (bind m (fun _ => k))
  (at level 100, right associativity) : py_scope.
Local Open Scope py_scope.

Definition is_not_None {A} (o : option A) : bool :=
  match o with
  | Some _ => true
  | None => false
  end.

Definition logger (level : Level) (msg : Message) : Py unit :=
  modify (record (Log level msg)).

(** [os.path.exists(path)]. *)
Definition path_exists (w : World) (path : Path) : bool :=
  match file w path with
  | Missing => false
  | Present _ => true
  end.

Definition encodings : list Encoding :=
  [utf_8; utf_8_sig; shift_jis; cp932; latin_1].

(** ** Loader *)

(** The loop [for encoding in encodings] of [load_csv_data]; the result is
    the final value of [df]. *)
Fixpoint try_encodings (path : Path) (read_csv : Encoding -> ReadResult)
         (encs : list Encoding) : Py (option DataFrame) :=
  match encs with
  | [] => ret None
  | encoding :: encs' =>
      match read_csv encoding with
      | Parsed df => ret (Some df)
      | UnicodeDecodeError => try_encodings path read_csv encs'
      | OtherReadError =>
          logger WARNING (FailedEncoding path encoding) ;;
          try_encodings path read_csv encs'
      end
  end.

Definition load_csv_data (w : World) (csv_path : Path) : Py DataFrame :=
  try_except
    (match file w csv_path with
     | Missing =>
         logger ERROR (CsvNotFound csv_path) ;;
         raise (FileNotFoundError (CsvFileNotFound csv_path))
     | Present read_csv =>
         df <- try_encodings csv_path read_csv encodings ;;
         match df with
         | None =>
             logger ERROR (FailedAnyEncoding csv_path) ;;
             raise ValueError
         | Some df => ret df
         end
     end)
    (fun e =>
       match e with
       | FileNotFoundError _ =>
           logger ERROR (CsvNotFound csv_path) ;;
           logger ERROR WorkingDirectory ;;
           logger ERROR FilesInApp ;;
           raise e
       | _ =>
           logger ERROR (ErrorLoadingCsv csv_path) ;; raise e
       end).

Section Service.
Context {rt : PyRuntime}.

(** One of the two blocks of [load_data]: load and chunk the source when
    its path exists, else warn and skip.  The result is the new value of
    [all_chunks]. *)
Definition load_source (w : World) (path : Path) (tag : pystr)
           (all_chunks : list Entry) : Py (list Entry) :=
  if path_exists w path then
    df <- load_csv_data w path ;;
    chunks <- lift (split_data_into_chunks df tag) ;;
    ret (all_chunks ++ chunks)
  else
    logger WARNING (NotFoundSkipping path) ;;
    ret all_chunks.

Definition load_data (w : World) : Py (list Entry) :=
  let all_chunks := [] in
  all_chunks <- load_source w VERB_CSV_PATH (py "verb") all_chunks ;;
  all_chunks <- load_source w ADJECTIVE_CSV_PATH (py "adjective") all_chunks ;;
  if length all_chunks =? 0 then
    logger ERROR NoCsvFiles ;;
    raise (FileNotFoundError NoCsvFilesFound)
  else ret all_chunks.

(** ** Cache core *)

Definition _refresh_cache (w : World) : Py (list Entry) :=
  try_except
    (chunks <- load_data w ;;
     modify (set_cache chunks (refresh_time w)) ;;
     logger INFO (CacheRefreshed (length chunks)) ;;
     ret chunks)
    (fun e =>
       modify (set_cache_loading false) ;;
       logger ERROR (CacheRefreshFailed e) ;;
       s <- get ;;
       match _cache_data s with
       | Some cached =>
           logger WARNING (UsingStaleCache e) ;;
           ret cached
       | None => raise e
       end).

Definition get_all_chunks (w : World) : Py (list Entry) :=
  s <- get ;;
  match _cache_data s with
  | Some cached =>
      let cache_age := (current_time w - _cache_timestamp s)%Q in
      if Qltb cache_age CACHE_TTL then ret cached
      else if Qltb cache_age (CACHE_TTL * 2)%Q then
        (if negb (_cache_loading s) then
           modify (set_cache_loading true) ;;
           modify (record ThreadStart)
         else ret tt) ;;
        ret cached
      else _refresh_cache w
  | None => _refresh_cache w
  end.

(** ** Initializer *)

(** The waiting loop of [ensure_initialized].  [polls] is the number of
    times the clock test [(time.time() - init_start_time) < max_wait_time]
    succeeds before it fails (about fifty with the 0.1 s sleeps).  The
    result tells whether the function returned from inside the loop. *)
Fixpoint wait_loop (polls : nat) : Py bool :=
  match polls with
  | 0 => ret false
  | S polls' =>
      s <- get ;;
      if negb (_initialized s) then
        if _initialized s then ret true
        else if _cache_loading s && is_not_None (_cache_data s)
        then modify (set_initialized true) ;; ret true
        else wait_loop polls'
      else ret false
  end.

(** The first two paragraphs of the [try] block: which configured paths
    exist. *)
Definition find_files (w : World) : Py (list Path) :=
  let found_files := [] in
  found_files <-
    (if path_exists w VERB_CSV_PATH then ret (found_files ++ [VERB_CSV_PATH])
     else logger WARNING (NotFoundAt VERB_CSV_PATH) ;; ret found_files) ;;
  (if path_exists w ADJECTIVE_CSV_PATH
   then ret (found_files ++ [ADJECTIVE_CSV_PATH])
   else logger WARNING (NotFoundAt ADJECTIVE_CSV_PATH) ;; ret found_files).

Definition ensure_initialized (w : World) (polls : nat) : Py unit :=
  s <- get ;;
  if _initialized s then ret tt
  else
    returned <- wait_loop polls ;;
    if returned : bool then ret tt
    else
      s <- get ;;
      if _initialized s then ret tt
      else
        try_except
          (found_files <- find_files w ;;
           (if length found_files =? 0 then
              logger ERROR NoCsvFiles ;;
              raise (FileNotFoundError NoCsvFilesFound)
            else ret tt) ;;
           get_all_chunks w ;;
           modify (set_initialized true))
          (fun e =>
             logger ERROR (FailedToPreload e) ;;
             raise e).
End Service.

(** ** Search page *)

Section Search.
Context {rt : PyRuntime}.

(** [chunk['data'][col].astype(str).str.lower()] for the column at
    position [j].  [astype(str)] applies [str] to every cell, so that a
    missing cell becomes the text "nan" (pandas before 3.0). *)
Definition column_values (df : DataFrame) (j : nat) : list pystr :=
  map (fun row => str_lower (py_str (nth j row NaN))) (rows df).

(** [col_values.str.contains(query_lower, na=False).any()]: the query is
    compiled as a regular expression ([regex=True] is the default of
    [str.contains]) and searched for in every value. *)
Definition column_contains (query_lower : pystr) (col_values : list pystr)
  : Outcome bool :=
  match re_compile query_lower with
  | None => Raise ReError
  | Some found_in => Return (existsb found_in col_values)
  end.

(** The loop [for col in chunk['data'].columns], over column positions;
    the result is the final value of [found]. *)
Fixpoint columns_loop (query_lower : pystr) (df : DataFrame)
         (cols : list nat) : Outcome bool :=
  match cols with
  | [] => Return false
  | j :: cols' =>
      match column_contains query_lower (column_values df j) with
      | Raise e => Raise e
      | Return true => Return true
      | Return false => columns_loop query_lower df cols'
      end
  end.

(** The [try] body of the loop over chunks: whether the chunk is
    appended to [results]. *)
Definition chunk_matches (query_lower : pystr) (chunk : Entry)
  : Outcome bool :=
  if contains query_lower (str_lower (title chunk)) then Return true
  else columns_loop query_lower (data chunk)
                    (seq 0 (length (columns (data chunk)))).

(** The loop [for chunk in chunks]; an exception while a chunk is
    processed is logged and the chunk skipped. *)
Fixpoint search_loop (query_lower : pystr) (chunks results : list Entry)
  : list Entry :=
  match chunks with
  | [] => results
  | chunk :: chunks' =>
      match chunk_matches query_lower chunk with
      | Return true => search_loop query_lower chunks' (results ++ [chunk])
      | Return false => search_loop query_lower chunks' results
      | Raise _ => search_loop query_lower chunks' results
      end
  end.

(** The results [index] computes for the parameter [q] from the chunks
    the cache hands it. *)
Definition search (q : pystr) (chunks : list Entry) : list Entry :=
  let query := str_strip q in
  match query with
  | [] => []
  | _ :: _ => search_loop (str_lower query) chunks []
  end.

Inductive Response :=
| IndexPage (query : pystr) (results : list Entry)
| ErrorPage.

(** The handler of [GET /].  [w_init] is the environment of the call to
    [ensure_initialized], [w] that of the later [get_all_chunks]. *)
Definition index (w_init w : World) (polls : nat) (q : pystr)
  : Py Response :=
  try_except
    (ensure_initialized w_init polls ;;
     let query := str_strip q in
     results <-
       match query with
       | [] => ret []
       | _ :: _ =>
           try_except
             (chunks <- get_all_chunks w ;;
              ret (search_loop (str_lower query) chunks []))
             (fun _ => ret [])
       end ;;
     ret (IndexPage query results))
    (fun _ => ret ErrorPage).
End Search.

(** ** Detail page, health check and start-up *)

(** [int(x)] of a clock difference: truncation toward zero. *)
Definition py_int (x : Q) : Z := Z.quot (Qnum x) (Z.pos (Qden x)).

Definition space : char := 32%N.
Definition carriage_return : char := 13%N.

(** The scan of [s.replace(old, new)] for a non-empty [old]: [skip] counts
    the characters of an occurrence just replaced that are still to be
    passed over. *)
Fixpoint replace_from (old new : pystr) (skip : nat) (s : pystr) : pystr :=
  match s with
  | [] => []
  | c :: s' =>
      match skip with
      | S skip' => replace_from old new skip' s'
      | 0 =>
          if prefix_of old s
          then new ++ replace_from old new (length old - 1) s'
          else c :: replace_from old new 0 s'
      end
  end.

(** [s.replace(old, new)]; with an empty [old], [new] goes before every
    character and at the end. *)
Definition str_replace (old new s : pystr) : pystr :=
  match old with
  | [] => new ++ flat_map (fun c => c :: new) s
  | _ :: _ => replace_from old new 0 s
  end.

(** [for c in chunks: if c['slug'] == slug: chunk = c; break]. *)
Fixpoint find_chunk (slug_wanted : pystr) (chunks : list Entry)
  : option Entry :=
  match chunks with
  | [] => None
  | c :: chunks' =>
      if list_eqb (slug c) slug_wanted then Some c
      else find_chunk slug_wanted chunks'
  end.

(** The frame a detail page shows: column names and cell texts. *)
Record DisplayFrame := {
  display_columns : list pystr;
  display_rows : list (list pystr)
}.

Inductive Method :=
| GET
| HEAD.

(** What [page_detail] answers.  The HTML that [to_html] and the templates
    make of a frame, a title or a message is not modelled: a page is
    given by the values it is rendered from. *)
Inductive DetailReply :=
| DetailPage (page_title : pystr) (table : DisplayFrame)
| NotFoundPage (slug_wanted : pystr)
| DetailError
| EmptyReply (status_code : nat).

(** What [health] answers: the text "OK (cache age: <n>s)", the text
    "OK (cache not ready)", the [HTTPException] with status 503, or the
    empty answer to [HEAD]. *)
Inductive HealthReply :=
| CacheAge (seconds : Z)
| CacheNotReady
| Unavailable
| HealthHead.

Section Pages.
Context {rt : PyRuntime}.

(** [re.sub(r'\s+', ' ', s)], the regular expression of
    [.str.replace(r'\s+', ' ', regex=True)]. *)
Fixpoint collapse_whitespace (in_run : bool) (s : pystr) : pystr :=
  match s with
  | [] => []
  | c :: s' =>
      if is_space c then
        if in_run then collapse_whitespace true s'
        else space :: collapse_whitespace true s'
      else c :: collapse_whitespace false s'
  end.

(** What the two assignments in the loop over [display_df.columns] make
    of the text of one cell. *)
Definition clean_text (text : pystr) : pystr :=
  let text := str_replace [newline] [space] text in
  let text := str_replace [carriage_return] [space] text in
  let text := str_replace [carriage_return; newline] [space] text in
  str_strip (collapse_whitespace false text).

(** A cell after [fillna('')] and [astype(str)]. *)
Definition filled_text (c : Cell) : pystr :=
  match c with
  | NaN => []
  | Val text => text
  end.

(** The positions of the columns shown: all but the first when there is
    more than one column ([iloc[:, 1:]]), else the only one. *)
Definition shown_columns (df : DataFrame) : list nat :=
  if 1 <? length (columns df) then seq 1 (length (columns df) - 1)
  else seq 0 (length (columns df)).

(** [display_df] of [page_detail] once its cells are cleaned. *)
Definition display_frame (df : DataFrame) : DisplayFrame :=
  {| display_columns := map (fun j => nth j (columns df) []) (shown_columns df);
     display_rows :=
       map (fun row =>
              map (fun j => clean_text (filled_text (nth j row NaN)))
                  (shown_columns df))
           (rows df) |}.

(** The handler of [/{slug}].  [w_init] is the environment of the call to
    [ensure_initialized], [w] that of [get_all_chunks].  As in [index],
    what the handlers themselves print and log is not recorded. *)
Definition page_detail (method : Method) (w_init w : World) (polls : nat)
           (slug_wanted : pystr) : Py DetailReply :=
  match method with
  | HEAD =>
      try_except
        (s <- get ;;
         match _cache_data s with
         | None => ret (EmptyReply 200)
         | Some _ =>
             chunks <- get_all_chunks w ;;
             match find_chunk slug_wanted chunks with
             | None => ret (EmptyReply 404)
             | Some _ => ret (EmptyReply 200)
             end
         end)
        (fun _ => ret (EmptyReply 200))
  | GET =>
      try_except
        (ensure_initialized w_init polls ;;
         chunks <- get_all_chunks w ;;
         match find_chunk slug_wanted chunks with
         | None => ret (NotFoundPage slug_wanted)
         | Some chunk =>
             ret (DetailPage (title chunk) (display_frame (data chunk)))
         end)
        (fun _ => ret DetailError)
  end.

(** The handler of [/health]; [w] gives the reading of [time.time()]
    under the lock. *)
Definition health (method : Method) (w_init w : World) (polls : nat)
  : Py HealthReply :=
  match method with
  | HEAD => ret HealthHead
  | GET =>
      try_except
        (ensure_initialized w_init polls ;;
         s <- get ;;
         match _cache_data s with
         | Some _ =>
             let cache_age := (current_time w - _cache_timestamp s)%Q in
             ret (CacheAge (py_int cache_age))
         | None => ret CacheNotReady
         end)
        (fun _ => ret Unavailable)
  end.

(** The last statement of the module: preload unless initialized, and
    print instead of failing. *)
Definition startup (w : World) (polls : nat) : Py unit :=
  s <- get ;;
  if negb (_initialized s) then
    try_except (ensure_initialized w polls) (fun _ => ret tt)
  else ret tt.

(** The [try] block of [ensure_initialized], reached when the waiting
    loop gave up. *)
Definition preload (w : World) : Py unit :=
  try_except
    (found_files <- find_files w ;;
     (if length found_files =? 0 then
        logger ERROR NoCsvFiles ;;
        raise (FileNotFoundError NoCsvFilesFound)
      else ret tt) ;;
     get_all_chunks w ;;
     modify (set_initialized true))
    (fun e =>
       logger ERROR (FailedToPreload e) ;;
       raise e).

(** What can happen to the process, one event after the other: a handler
    or the import runs, or a background thread runs its refresh. *)
Inductive Action :=
| Import (w : World) (polls : nat)
| Read (w : World)
| ThreadRuns (w : World)
| Index (w_init w : World) (polls : nat) (q : pystr)
| Health (method : Method) (w_init w : World) (polls : nat)
| Detail (method : Method) (w_init w : World) (polls : nat)
         (slug_wanted : pystr).

Definition act (a : Action) (s : State) : State :=
  match a with
  | Import w polls => snd (startup w polls s)
  | Read w => snd (get_all_chunks w s)
  | ThreadRuns w => snd (_refresh_cache w s)
  | Index w_init w polls q => snd (index w_init w polls q s)
  | Health method w_init w polls => snd (health method w_init w polls s)
  | Detail method w_init w polls slug_wanted =>
      snd (page_detail method w_init w polls slug_wanted s)
  end.

(** The state after a history of actions, the oldest first. *)
Definition after (history : list Action) (s : State) : State :=
  fold_left (fun s a => act a s) history s.
End Pages.

(** ** Vocabulary of the properties *)

(** Group sizes of a partition into fours: every size but the last is
    exactly 4, the last is between 1 and 4. *)
Fixpoint groups_of_four (sizes : list nat) : Prop :=
  match sizes with
  | [] => True
  | n :: rest =>
      match rest with
      | [] => 1 <= n <= 4
      | _ :: _ => n = 4 /\ groups_of_four rest
      end
  end.

Section EntryRules.
Context {rt : PyRuntime}.

(** The subtitle of a group with first row [row]. *)
Definition subtitle_rule (chunk_df : DataFrame) (row : Row) : pystr :=
  if 1 <? length (columns chunk_df) then
    match nth 1 row NaN with
    | NaN => []
    | Val text => str_strip text
    end
  else [].

Definition slug_rule (title source : pystr) : pystr :=
  match source with
  | [] => base_slug_of title
  | _ :: _ => base_slug_of title ++ hyphen :: source
  end.

(** [e] is the entry of a non-empty group of [df] under the tag [src]. *)
Definition entry_spec (df : DataFrame) (src : pystr) (e : Entry) : Prop :=
  match rows (data e) with
  | [] => False
  | row :: _ =>
      title e = str_strip (py_str (nth 0 row NaN)) /\
      subtitle e = subtitle_rule (data e) row /\
      slug e = slug_rule (title e) src /\
      source e = src /\
      entry_columns e = columns df /\
      columns (data e) = columns df
  end.

(** [e] carries one of the two source tags and its slug is the base
    slug of its title followed by a hyphen and that tag. *)
Definition tagged (e : Entry) : Prop :=
  (source e = py "verb" \/ source e = py "adjective") /\
  slug e = base_slug_of (title e) ++ hyphen :: source e.

(** The filter the search page applies when the query has no special
    character of the pattern syntax. *)
Definition literal_match (query_lower : pystr) (e : Entry) : bool :=
  contains query_lower (str_lower (title e)) ||
  existsb (fun j => existsb (contains query_lower) (column_values (data e) j))
          (seq 0 (length (columns (data e)))).

(** The match the interface describes: the query occurs, case folded, in
    the title or in the value of a cell that is present. *)
Definition cell_has (query_lower : pystr) (c : Cell) : bool :=
  match c with
  | NaN => false
  | Val text => contains query_lower (str_lower text)
  end.

Definition substring_match (query_lower : pystr) (e : Entry) : bool :=
  contains query_lower (str_lower (title e)) ||
  existsb (fun row =>
             existsb (fun j => cell_has query_lower (nth j row NaN))
                     (seq 0 (length (columns (data e)))))
          (rows (data e)).
End EntryRules.

(** [s] with [evs] added to the journal and the globals untouched. *)
Definition extend (evs : list Event) (s : State) : State :=
  {| _cache_data := _cache_data s;
     _cache_timestamp := _cache_timestamp s;
     _cache_loading := _cache_loading s;
     _initialized := _initialized s;
     journal := journal s ++ evs |}.

Definition log_records (rs : list (Level * Message)) : list Event :=
  map (fun r => Log (fst r) (snd r)) rs.

(** A computation that only hands records to the logger, and whose
    outcome does not depend on the globals. *)
Definition writes_log {A} (m : Py A) : Prop :=
  exists o rs, forall s, m s = (o, extend (log_records rs) s).

(** [cache_age] as [get_all_chunks] computes it. *)
Definition cache_age (w : World) (s : State) : Q :=
  (current_time w - _cache_timestamp s)%Q.

(** ** Concrete inputs *)

Definition one_column (t : string) (titles : list string) : DataFrame :=
  {| first_column := py t;
     other_columns := [];
     rows := map (fun x => [Val (py x)]) titles |}.

Definition always (df : DataFrame) : FileState :=
  Present (fun _ => Parsed df).

Definition no_files : Path -> FileState := fun _ => Missing.

(** Both sources absent; the clock reads [now] at both readings. *)
Definition empty_world (now : Q) : World :=
  {| file := no_files; current_time := now; refresh_time := now |}.

(** A verb file holding a header line and no record; no adjective file. *)
Definition header_only_world : World :=
  {| file := fun p =>
               match p with
               | VERB_CSV_PATH => always (one_column "word" [])
               | ADJECTIVE_CSV_PATH => Missing
               end;
     current_time := 0%Q;
     refresh_time := 0%Q |}.

(** A verb file of five records, hence two groups, titled "A" and "a". *)
Definition cased_world : World :=
  {| file := fun p =>
               match p with
               | VERB_CSV_PATH =>
                   always (one_column "word" ["A"; "b"; "c"; "d"; "a"])
               | ADJECTIVE_CSV_PATH => Missing
               end;
     current_time := 0%Q;
     refresh_time := 0%Q |}.

(** The same base title "suru" in both sources, with a subtitle column in
    the verb file whose first record has no value there. *)
Definition suru_verbs : DataFrame :=
  {| first_column := py "word";
     other_columns := [py "reading"];
     rows := [[Val (py "suru"); NaN];
              [Val (py "shi"); Val (py " x ")]] |}.

Definition suru_world : World :=
  {| file := fun p =>
               match p with
               | VERB_CSV_PATH => always suru_verbs
               | ADJECTIVE_CSV_PATH => always (one_column "word" ["suru"])
               end;
     current_time := 0%Q;
     refresh_time := 0%Q |}.

Definition abc_entry : Entry :=
  {| title := py "abc";
     subtitle := [];
     slug := py "abc-verb";
     source := py "verb";
     data := one_column "word" ["abc"];
     entry_columns := [py "word"] |}.

(** An entry whose only record lacks its second cell. *)
Definition gap_entry : Entry :=
  {| title := py "miru";
     subtitle := [];
     slug := py "miru-verb";
     source := py "verb";
     data := {| first_column := py "word";
                other_columns := [py "reading"];
                rows := [[Val (py "miru"); NaN]] |};
     entry_columns := [py "word"; py "reading"] |}.

(** An entry with a parenthesis in its only cell. *)
Definition paren_entry : Entry :=
  {| title := py "kaku";
     subtitle := [];
     slug := py "kaku-verb";
     source := py "verb";
     data := one_column "word" ["(kaku)"];
     entry_columns := [py "word"] |}.

(** A snapshot installed at time 0, no refresh in flight. *)
Definition warm_state (cached : list Entry) : State :=
  {| _cache_data := Some cached;
     _cache_timestamp := 0%Q;
     _cache_loading := false;
     _initialized := true;
     journal := [] |}.


(** A runtime whose pattern engine knows the pattern ".", which matches
    any character but a newline. *)
Definition dot_runtime : PyRuntime := {|
  unicode_isalnum := fun _ => false;
  unicode_isspace := fun _ => false;
  unicode_lower := fun s => s;
  regex_engine := fun pat =>
    if list_eqb pat (py ".")
    then Some (existsb (fun c => negb (c =? newline)%N))
    else None
|}.

(** ** Vocabulary of the further properties *)

(** No encoding makes a frame of the file. *)
Definition unreadable (read_csv : Encoding -> ReadResult) : Prop :=
  forall encoding df, read_csv encoding <> Parsed df.

Section MoreRules.
Context {rt : PyRuntime}.

(** What a configured path adds to the list [load_data] builds: nothing
    when it is missing, else the chunks of the frame read from it. *)
Definition contributes (w : World) (path : Path) (tag : pystr)
           (es : list Entry) : Prop :=
  (file w path = Missing /\ es = []) \/
  (exists df s0, fst (load_csv_data w path s0) = Return df /\
                 split_data_into_chunks df tag = Return es).

(** A path from which [load_data] gets no chunk. *)
Definition yields_nothing (w : World) (path : Path) : Prop :=
  file w path = Missing \/
  exists df s0, fst (load_csv_data w path s0) = Return df /\ len df = 0.

(** The chunk is appended to the results of a search: its [try] body
    ran to the end and found the query. *)
Definition accepted (query_lower : pystr) (chunk : Entry) : bool :=
  match chunk_matches query_lower chunk with
  | Return found => found
  | Raise _ => false
  end.

(** The age of the snapshot of [s] at the reading of [w] lies in the
    window in which a stale snapshot is served. *)
Definition in_stale_window (w : World) (s : State) : Prop :=
  (CACHE_TTL <= cache_age w s)%Q /\ (cache_age w s < CACHE_TTL * 2)%Q.

(** What holds of the globals of a running process: a snapshot is never
    empty and its entries carry their tags, and both the initialized flag
    and the loading flag are only set over a snapshot. *)
Definition state_ok (s : State) : Prop :=
  (forall chunks, _cache_data s = Some chunks ->
                  chunks <> [] /\ Forall tagged chunks) /\
  (_initialized s = true -> _cache_data s <> None) /\
  (_cache_loading s = true -> _cache_data s <> None).
End MoreRules.

(** [c] never occurs twice in a row in [s]. *)
Fixpoint no_adjacent (c : char) (s : pystr) : Prop :=
  match s with
  | [] => True
  | x :: s' =>
      match s' with
      | [] => True
      | y :: _ => ~ (x = c /\ y = c)
      end /\ no_adjacent c s'
  end.

(** [s] neither starts nor ends with a character of the class. *)
Definition trimmed (drop : char -> bool) (s : pystr) : Prop :=
  (forall c s', s = c :: s' -> drop c = false) /\
  (forall c s', s = s' ++ [c] -> drop c = false).

(** ** Further concrete inputs *)

(** A file that decodes under neither UTF-8 codec and parses under
    Shift-JIS. *)
Definition shift_jis_file (df : DataFrame) : FileState :=
  Present (fun encoding =>
             match encoding with
             | utf_8 | utf_8_sig => UnicodeDecodeError
             | _ => Parsed df
             end).

(** A file no encoding parses. *)
Definition broken_file : FileState := Present (fun _ => OtherReadError).

(** A verb file in Shift-JIS and no adjective file. *)
Definition shift_jis_world : World :=
  {| file := fun p =>
               match p with
               | VERB_CSV_PATH => shift_jis_file suru_verbs
               | ADJECTIVE_CSV_PATH => Missing
               end;
     current_time := 0%Q;
     refresh_time := 0%Q |}.

(** A good verb file beside a broken adjective file. *)
Definition half_broken_world : World :=
  {| file := fun p =>
               match p with
               | VERB_CSV_PATH => always suru_verbs
               | ADJECTIVE_CSV_PATH => broken_file
               end;
     current_time := 0%Q;
     refresh_time := 0%Q |}.

(** The two files of [suru_world] read at time [now], the snapshot
    stamped at time [stamp]. *)
Definition suru_world_at (now stamp : Q) : World :=
  {| file := file suru_world; current_time := now; refresh_time := stamp |}.

Create HintDb pylog.

(** * Properties *)

(** ** Lists cut into fours *)

Lemma groups_cover {A} (l : list A) (gs : list (list A)) :
  forall start,
    (forall k g, nth_error gs k = Some g ->
                 start + 4 * k < length l /\
                 g = firstn 4 (skipn (start + 4 * k) l)) ->
    (forall k, start + 4 * k < length l -> k < length gs) ->
    concat gs = skipn start l /\ groups_of_four (map (@length A) gs).
Proof.
  induction gs as [|g gs IH]; intros start Hpos Hall.
  - split; [|exact I]. cbn. symmetry. apply skipn_all2.
    destruct (Nat.le_gt_cases (length l) start) as [Hle | Hlt]; [exact Hle|].
    specialize (Hall 0). cbn in Hall. lia.
  - destruct (Hpos 0 g eq_refl) as [Hlt Hg].
    rewrite Nat.mul_0_r, Nat.add_0_r in Hlt, Hg.
    destruct (IH (start + 4)) as [Hcat Hsizes].
    + intros k g' Hk. destruct (Hpos (S k) g' Hk) as [H1 H2].
      replace (start + 4 + 4 * k) with (start + 4 * S k) by lia. auto.
    + intros k Hk. specialize (Hall (S k)). cbn [length] in Hall. lia.
    + split.
      * cbn [concat]. rewrite Hcat, Hg.
        replace (start + 4) with (4 + start) by lia.
        rewrite <- skipn_skipn. apply firstn_skipn.
      * cbn [map groups_of_four]. destruct gs as [|g' gs'].
        -- cbn. rewrite Hg, length_firstn, length_skipn. lia.
        -- split; [|exact Hsizes].
           destruct (Hpos 1 g' eq_refl) as [H1 _].
           rewrite Hg, length_firstn, length_skipn. lia.
Qed.

Lemma groups_of_four_bounds sizes :
  groups_of_four sizes -> Forall (fun n => 1 <= n <= 4) sizes.
Proof.
  induction sizes as [|n rest IH]; intros H; [constructor|].
  cbn in H. destruct rest as [|m rest'].
  - constructor; [exact H | constructor].
  - destruct H as [Hn Hrest]. constructor; [lia | auto].
Qed.

(** ** Chunker *)

Section ChunkerFacts.
Context {rt : PyRuntime}.

Lemma make_chunk_spec df chunk_df src row rest :
  rows chunk_df = row :: rest ->
  columns chunk_df = columns df ->
  exists e, make_chunk df chunk_df src = Return e /\ data e = chunk_df /\
            entry_spec df src e.
Proof.
  intros Hrows Hcols.
  assert (H0 : (0 <? length (columns chunk_df)) = true) by reflexivity.
  unfold make_chunk, iloc. rewrite Hrows. cbn [nth_error]. rewrite H0.
  unfold entry_spec, subtitle_rule, slug_rule.
  destruct (1 <? length (columns chunk_df)) eqn:Hw.
  - destruct (nth 1 row NaN) eqn:Hc; cbn [notna py_str];
      (eexists; split; [reflexivity|]; split; [reflexivity|]);
      cbn [data title subtitle slug source entry_columns];
      rewrite Hrows, Hw, Hc; destruct src; auto 10.
  - eexists; split; [reflexivity|]; split; [reflexivity|].
    cbn [data title subtitle slug source entry_columns].
    rewrite Hrows, Hw. destruct src; auto 10.
Qed.

Lemma clamp_end_bounds df start :
  start < len df ->
  start < clamp_end df start <= len df /\
  (clamp_end df start = start + 4 \/
   clamp_end df start = len df /\ len df < start + 4).
Proof.
  intros H. unfold clamp_end. destruct (len df <? start + 4) eqn:E.
  - apply Nat.ltb_lt in E. lia.
  - apply Nat.ltb_ge in E. lia.
Qed.

Lemma slice_rows df start :
  start < len df ->
  rows (iloc_slice df start (clamp_end df start)) =
  firstn 4 (skipn start (rows df)).
Proof.
  intros H. cbn [iloc_slice rows].
  destruct (clamp_end_bounds df start H) as [_ [E | [E Hlt]]]; rewrite E.
  - f_equal. lia.
  - unfold len in *.
    rewrite !firstn_all2; auto; rewrite length_skipn; lia.
Qed.

Lemma slice_nonempty df start :
  start < len df ->
  exists row rest, firstn 4 (skipn start (rows df)) = row :: rest.
Proof.
  unfold len. intros H.
  destruct (skipn start (rows df)) as [|row rest] eqn:E.
  - apply (f_equal (@length _)) in E. rewrite length_skipn in E.
    cbn in E. lia.
  - cbn. eauto.
Qed.

Lemma chunk_step_spec df src start chunks :
  start < len df ->
  exists e, chunk_step df src start chunks = Return (chunks ++ [e]) /\
            rows (data e) = firstn 4 (skipn start (rows df)) /\
            entry_spec df src e.
Proof.
  intros H. unfold chunk_step.
  destruct (slice_nonempty df start H) as (row & rest & Hg).
  pose proof (slice_rows df start H) as Hs. rewrite Hg in Hs.
  destruct (make_chunk_spec df _ src row rest Hs eq_refl)
    as (e & He & Hd & Hspec).
  unfold len at 1. rewrite Hs. cbn [length Nat.ltb Nat.leb]. rewrite He.
  exists e. repeat split; auto. rewrite Hd, Hs. symmetry. exact Hg.
Qed.

(** The loop, one iteration unfolded. *)
Lemma split_loop_step df src start chunks :
  split_loop df src start chunks =
  if start <? len df then
    match chunk_step df src start chunks with
    | Raise e => Raise e
    | Return chunks' => split_loop df src (clamp_end df start) chunks'
    end
  else Return chunks.
Proof.
  funelim (split_loop df src start chunks);
    match goal with
    | l : _ < len _ |- _ =>
        let E := fresh in
        pose proof (proj2 (Nat.ltb_lt _ _) l) as E; rewrite E
    | n : ~ _ < len _ |- _ =>
        let E := fresh in
        pose proof (proj2 (Nat.ltb_nlt _ _) n) as E; rewrite E
    end;
    try match goal with
    | E : chunk_step _ _ _ _ = _ |- _ => rewrite E
    end; reflexivity.
Qed.

(** The loop started at [start] returns, appends one entry per group of
    four rows from [start] on, and the [k]-th of them holds the rows
    [start + 4k .. start + 4k + 3]. *)
Lemma split_loop_spec df src chunks start :
  exists es,
    split_loop df src start chunks = Return (chunks ++ es) /\
    Forall (entry_spec df src) es /\
    (forall k e, nth_error es k = Some e ->
                 start + 4 * k < len df /\
                 rows (data e) = firstn 4 (skipn (start + 4 * k) (rows df))) /\
    (forall k, start + 4 * k < len df -> k < length es).
Proof.
  remember (len df - start) as n eqn:Hn.
  revert start chunks Hn.
  induction n as [n IH] using lt_wf_ind. intros start chunks Hn.
  rewrite split_loop_step.
  destruct (Nat.ltb_spec start (len df)) as [Hlt | Hge].
  - destruct (chunk_step_spec df src start chunks Hlt)
      as (e & He & Hrows & Hspec).
    rewrite He.
    destruct (clamp_end_bounds df start Hlt) as [Hb Hcase].
    destruct (IH (len df - clamp_end df start) ltac:(lia)
                 (clamp_end df start) (chunks ++ [e]) eq_refl)
      as (es & Hes & Hall & Hpos & Hlen).
    exists (e :: es). rewrite Hes, <- app_assoc. cbn [app].
    split; [reflexivity|]. split; [constructor; auto|].
    split.
    + intros [|k] e' Hk; cbn in Hk.
      * inversion Hk; subst. rewrite Nat.mul_0_r, Nat.add_0_r. auto.
      * apply Hpos in Hk.
        destruct Hcase as [E | [E Hshort]]; rewrite E in Hk.
        -- replace (start + 4 * S k) with (start + 4 + 4 * k) by lia. auto.
        -- lia.
    + intros [|k] Hk; cbn [length]; [lia|].
      apply -> Nat.succ_lt_mono. apply Hlen.
      destruct Hcase as [E | [E Hshort]]; rewrite E; lia.
  - exists []. rewrite app_nil_r. repeat split; auto.
    + destruct k; discriminate.
    + destruct k; discriminate.
    + intros. lia.
Qed.

Lemma split_data_into_chunks_spec df src :
  exists es,
    split_data_into_chunks df src = Return es /\
    Forall (entry_spec df src) es /\
    (forall k e, nth_error es k = Some e ->
                 4 * k < len df /\
                 rows (data e) = firstn 4 (skipn (4 * k) (rows df))) /\
    (forall k, 4 * k < len df -> k < length es).
Proof.
  destruct (split_loop_spec df src [] 0) as (es & H & Hall & Hpos & Hlen).
  exists es. auto.
Qed.

(** C4: for every frame and source tag, [split_data_into_chunks] returns
    entries whose row groups, concatenated in order, are exactly the rows
    of the frame; every group but the last has exactly 4 rows and the
    last between 1 and 4, so none is empty; the [k]-th entry holds the
    rows [4k .. 4k+3]; the group sizes add up to the number of rows; and
    a frame without rows yields no entry. *)
Theorem split_data_into_chunks_partitions df src :
  exists entries,
    split_data_into_chunks df src = Return entries /\
    concat (map (fun e => rows (data e)) entries) = rows df /\
    groups_of_four (map (fun e => len (data e)) entries) /\
    Forall (fun e => 1 <= len (data e) <= 4) entries /\
    (forall k e, nth_error entries k = Some e ->
                 rows (data e) = firstn 4 (skipn (4 * k) (rows df))) /\
    list_sum (map (fun e => len (data e)) entries) = len df /\
    (len df = 0 <-> entries = []).
Proof.
  destruct (split_data_into_chunks_spec df src) as (es & H & _ & Hpos & Hlen).
  exists es. split; [exact H|].
  destruct (groups_cover (rows df) (map (fun e => rows (data e)) es) 0)
    as [Hcat Hsizes].
  - intros k g Hk. rewrite nth_error_map in Hk.
    destruct (nth_error es k) as [e|] eqn:E; [|discriminate].
    cbn in Hk. inversion Hk; subst g.
    destruct (Hpos k e E) as [H1 H2]. split; [exact H1 | exact H2].
  - intros k Hk. rewrite length_map. apply Hlen. exact Hk.
  - rewrite map_map in Hsizes. cbn [skipn] in Hcat.
    assert (Hsum : list_sum (map (fun e => len (data e)) es) = len df).
    { unfold len at 2. rewrite <- Hcat, length_concat, map_map.
      reflexivity. }
    repeat split.
    + exact Hcat.
    + exact Hsizes.
    + apply groups_of_four_bounds in Hsizes.
      rewrite Forall_map in Hsizes. exact Hsizes.
    + intros k e Hk. apply (Hpos k e Hk).
    + exact Hsum.
    + intros H0. destruct es as [|e es']; [reflexivity|].
      specialize (Hpos 0 e eq_refl). lia.
    + intros ->. cbn in Hsum. lia.
Qed.

(** C10: in a frame with more than one column, the subtitle of the
    [k]-th entry is decided by the second cell of the group's first row,
    row [4k] of the frame: the empty string when that cell is missing,
    and the stripped text of the cell when it is present. *)
Theorem subtitle_skips_missing_cell df src entries k e :
  split_data_into_chunks df src = Return entries ->
  1 < length (columns df) ->
  nth_error entries k = Some e ->
  subtitle e =
  match nth 1 (nth (4 * k) (rows df) []) NaN with
  | NaN => []
  | Val text => str_strip text
  end.
Proof.
  intros Hsplit Hwide Hk.
  destruct (split_data_into_chunks_spec df src)
    as (es & H & Hall & Hpos & _).
  rewrite Hsplit in H. inversion H; subst es. clear H.
  destruct (Hpos k e Hk) as [Hlt Hrows].
  rewrite Forall_forall in Hall.
  specialize (Hall e (nth_error_In _ _ Hk)).
  unfold entry_spec in Hall. rewrite Hrows in Hall.
  unfold len in Hlt.
  destruct (skipn (4 * k) (rows df)) as [|row rest] eqn:E.
  - apply (f_equal (@length _)) in E. rewrite length_skipn in E.
    cbn in E. lia.
  - assert (Hrow : nth (4 * k) (rows df) [] = row).
    { rewrite <- (firstn_skipn (4 * k) (rows df)), E.
      rewrite app_nth2; rewrite length_firstn;
        replace (Nat.min (4 * k) (length (rows df))) with (4 * k) by lia.
      - rewrite Nat.sub_diag. reflexivity.
      - lia. }
    cbn [firstn] in Hall.
    destruct Hall as (_ & Hsub & _ & _ & _ & Hcols).
    rewrite Hsub, Hrow. unfold subtitle_rule. rewrite Hcols.
    apply Nat.ltb_lt in Hwide. rewrite Hwide. reflexivity.
Qed.
End ChunkerFacts.

(** ** Clock comparisons *)

Lemma Qltb_true x y : Qltb x y = true <-> (x < y)%Q.
Proof.
  unfold Qltb. rewrite Qlt_alt. destruct (x ?= y)%Q; split; congruence.
Qed.

Lemma Qltb_false x y : Qltb x y = false <-> (y <= x)%Q.
Proof.
  unfold Qltb. rewrite Qle_alt, <- (Qcompare_antisym x y).
  destruct (x ?= y)%Q; cbn; split; congruence.
Qed.

(** ** Computations that only log *)

Lemma extend_nil s : extend [] s = s.
Proof. destruct s. unfold extend. cbn. rewrite app_nil_r. reflexivity. Qed.

Lemma extend_extend evs1 evs2 s :
  extend evs2 (extend evs1 s) = extend (evs1 ++ evs2) s.
Proof. unfold extend. cbn. rewrite app_assoc. reflexivity. Qed.

Lemma log_records_app rs1 rs2 :
  log_records (rs1 ++ rs2) = log_records rs1 ++ log_records rs2.
Proof. apply map_app. Qed.

Lemma no_thread_in_log_records rs : ~ In ThreadStart (log_records rs).
Proof.
  unfold log_records. rewrite in_map_iff. intros (r & Hr & _). discriminate.
Qed.

Lemma writes_log_ret {A} (a : A) : writes_log (ret a).
Proof. exists (Return a), []. intros s. cbn. rewrite extend_nil. reflexivity. Qed.

Lemma writes_log_raise {A} e : writes_log (@raise A e).
Proof. exists (Raise e), []. intros s. cbn. rewrite extend_nil. reflexivity. Qed.

Lemma writes_log_lift {A} (o : Outcome A) : writes_log (lift o).
Proof. exists o, []. intros s. cbn. rewrite extend_nil. reflexivity. Qed.

Lemma writes_log_logger level msg : writes_log (logger level msg).
Proof. exists (Return tt), [(level, msg)]. reflexivity. Qed.

Lemma writes_log_bind {A B} (m : Py A) (k : A -> Py B) :
  writes_log m -> (forall a, writes_log (k a)) -> writes_log (bind m k).
Proof.
  intros (o & rs & Hm) Hk. destruct o as [a | e].
  - destruct (Hk a) as (o' & rs' & Hka).
    exists o', (rs ++ rs'). intros s. unfold bind.
    rewrite Hm, Hka, extend_extend, log_records_app. reflexivity.
  - exists (Raise e), rs. intros s. unfold bind. rewrite Hm. reflexivity.
Qed.

Lemma writes_log_try {A} (m : Py A) (h : Exception -> Py A) :
  writes_log m -> (forall e, writes_log (h e)) -> writes_log (try_except m h).
Proof.
  intros (o & rs & Hm) Hh. destruct o as [a | e].
  - exists (Return a), rs. intros s. unfold try_except. rewrite Hm.
    reflexivity.
  - destruct (Hh e) as (o' & rs' & Hhe).
    exists o', (rs ++ rs'). intros s. unfold try_except.
    rewrite Hm, Hhe, extend_extend, log_records_app. reflexivity.
Qed.

#[local] Hint Resolve writes_log_ret writes_log_raise writes_log_lift
  writes_log_logger writes_log_bind writes_log_try : pylog.

Lemma writes_log_try_encodings path read_csv encs :
  writes_log (try_encodings path read_csv encs).
Proof.
  induction encs as [|enc encs IH]; cbn [try_encodings]; auto with pylog.
  destruct (read_csv enc); auto with pylog.
Qed.

(** The loop over encodings never raises. *)
Lemma try_encodings_returns path read_csv encs s :
  exists df, fst (try_encodings path read_csv encs s) = Return df.
Proof.
  revert s. induction encs as [|enc encs IH]; intros s; cbn [try_encodings].
  - exists None. reflexivity.
  - destruct (read_csv enc) as [df| |].
    + exists (Some df). reflexivity.
    + apply IH.
    + unfold bind, logger, modify. apply IH.
Qed.

Lemma writes_log_load_csv_data w path : writes_log (load_csv_data w path).
Proof.
  unfold load_csv_data. apply writes_log_try.
  - destruct (file w path); auto with pylog.
    apply writes_log_bind; [apply writes_log_try_encodings|].
    intros [df|]; auto with pylog.
  - intros []; auto 10 with pylog.
Qed.

(** A path that exists is never reported with the message of the empty
    source set by the loader of one file. *)
Lemma load_csv_data_present w path read_csv s :
  file w path = Present read_csv ->
  fst (load_csv_data w path s) <> Raise (FileNotFoundError NoCsvFilesFound).
Proof.
  intros Hf. unfold load_csv_data, try_except, bind. rewrite Hf.
  destruct (try_encodings_returns path read_csv encodings s) as [df Hdf].
  destruct (try_encodings path read_csv encodings s) as [o s1].
  cbn in Hdf. subst o. destruct df as [df|]; cbn; discriminate.
Qed.
(** ** Loader and cache core *)

Section CacheFacts.
Context {rt : PyRuntime}.

Lemma writes_log_load_source w path tag acc :
  writes_log (load_source w path tag acc).
Proof.
  unfold load_source. destruct (path_exists w path); auto with pylog.
  apply writes_log_bind; [apply writes_log_load_csv_data|].
  intros df. auto with pylog.
Qed.

Lemma writes_log_load_data w : writes_log (load_data w).
Proof.
  unfold load_data.
  apply writes_log_bind; [apply writes_log_load_source|]. intros a.
  apply writes_log_bind; [apply writes_log_load_source|]. intros b.
  destruct (length b =? 0); auto with pylog.
Qed.

(** What [_refresh_cache] does, given what the load inside it does. *)
Lemma refresh_cache_unfold w s o rs :
  (forall s0, load_data w s0 = (o, extend (log_records rs) s0)) ->
  _refresh_cache w s =
  match o with
  | Return chunks =>
      (Return chunks,
       record (Log INFO (CacheRefreshed (length chunks)))
              (set_cache chunks (refresh_time w)
                         (extend (log_records rs) s)))
  | Raise e =>
      let s1 := record (Log ERROR (CacheRefreshFailed e))
                       (set_cache_loading false
                          (extend (log_records rs) s)) in
      match _cache_data s with
      | Some cached =>
          (Return cached, record (Log WARNING (UsingStaleCache e)) s1)
      | None => (Raise e, s1)
      end
  end.
Proof.
  intros Hlog. unfold _refresh_cache, try_except, bind. rewrite Hlog.
  destruct o as [chunks | e]; cbn; [reflexivity|].
  destruct (_cache_data s); reflexivity.
Qed.

(** Whatever the files hold, [_refresh_cache] hands a record to the
    logger and starts no thread. *)
Lemma refresh_is_logged w s :
  exists rs level msg,
    journal (snd (_refresh_cache w s)) = journal s ++ log_records rs /\
    In (level, msg) rs.
Proof.
  destruct (writes_log_load_data w) as (o & rs & Hlog).
  rewrite (refresh_cache_unfold w s o rs Hlog).
  destruct o as [chunks | e]; cbn.
  - exists (rs ++ [(INFO, CacheRefreshed (length chunks))]), INFO,
      (CacheRefreshed (length chunks)).
    rewrite log_records_app, app_assoc. split; [reflexivity|].
    apply in_or_app. right. left. reflexivity.
  - destruct (_cache_data s); cbn.
    + exists (rs ++ [(ERROR, CacheRefreshFailed e);
                     (WARNING, UsingStaleCache e)]), ERROR,
        (CacheRefreshFailed e).
      rewrite log_records_app, <- !app_assoc. split; [reflexivity|].
      apply in_or_app. right. left. reflexivity.
    + exists (rs ++ [(ERROR, CacheRefreshFailed e)]), ERROR,
        (CacheRefreshFailed e).
      rewrite log_records_app, <- !app_assoc. split; [reflexivity|].
      apply in_or_app. right. left. reflexivity.
Qed.

(** A refresh, synchronous or run by the background thread, ends with
    [_cache_loading] false whether the load succeeded or not, and with
    the loaded chunks installed when it succeeded. *)
Lemma refresh_clears_loading w s :
  _cache_loading (snd (_refresh_cache w s)) = false /\
  (forall chunks, fst (load_data w s) = Return chunks ->
                  _cache_data (snd (_refresh_cache w s)) = Some chunks /\
                  _cache_timestamp (snd (_refresh_cache w s))
                  = refresh_time w).
Proof.
  destruct (writes_log_load_data w) as (o & rs & Hlog).
  rewrite (refresh_cache_unfold w s o rs Hlog), Hlog.
  destruct o as [chunks | e]; cbn.
  - split; [reflexivity|]. intros c Hc. inversion Hc; subst. auto.
  - destruct (_cache_data s); cbn; split; try reflexivity; discriminate.
Qed.

(** C3: when the load inside [_refresh_cache] raises, the call leaves
    [_cache_loading] false and the installed snapshot and its timestamp
    as they were; it returns the previous snapshot when there is one,
    and raises (the exception of the load) exactly when there is none. *)
Theorem refresh_failure_keeps_snapshot w s e s1 :
  load_data w s = (Raise e, s1) ->
  _cache_loading (snd (_refresh_cache w s)) = false /\
  _cache_data (snd (_refresh_cache w s)) = _cache_data s /\
  _cache_timestamp (snd (_refresh_cache w s)) = _cache_timestamp s /\
  (forall cached, _cache_data s = Some cached ->
                  fst (_refresh_cache w s) = Return cached) /\
  ((exists e', fst (_refresh_cache w s) = Raise e') <->
   _cache_data s = None) /\
  (_cache_data s = None -> fst (_refresh_cache w s) = Raise e).
Proof.
  intros Hload.
  destruct (writes_log_load_data w) as (o & rs & Hlog).
  rewrite (refresh_cache_unfold w s o rs Hlog).
  rewrite Hlog in Hload. inversion Hload; subst o s1. clear Hload.
  cbn. destruct (_cache_data s) as [cached|] eqn:Hc; cbn.
  - repeat split; auto.
    + intros c Hc'. inversion Hc'; reflexivity.
    + intros [e' He']. discriminate.
    + discriminate.
    + discriminate.
  - repeat split; auto.
    + discriminate.
    + eauto.
Qed.

(** The stale window, as one equation. *)
Lemma stale_read w s cached :
  _cache_data s = Some cached ->
  (CACHE_TTL <= cache_age w s)%Q ->
  (cache_age w s < CACHE_TTL * 2)%Q ->
  get_all_chunks w s =
  (Return cached,
   if _cache_loading s then s
   else record ThreadStart (set_cache_loading true s)).
Proof.
  intros Hc Hlo Hhi. unfold cache_age in *.
  apply Qltb_false in Hlo. apply Qltb_true in Hhi.
  unfold get_all_chunks, bind, get. cbn. rewrite Hc, Hlo, Hhi.
  destruct (_cache_loading s); reflexivity.
Qed.

(** C1: with a snapshot whose age lies in the stale window
    [TTL <= age < 2*TTL], [get_all_chunks] returns that snapshot and
    leaves it and its timestamp installed; it does not go through
    [_refresh_cache] (nothing is logged); when no refresh is in flight it
    sets [_cache_loading] and starts exactly one background thread, and
    when one is in flight it changes nothing and starts none. *)
Theorem stale_read_serves_snapshot w s cached :
  _cache_data s = Some cached ->
  (CACHE_TTL <= cache_age w s)%Q ->
  (cache_age w s < CACHE_TTL * 2)%Q ->
  fst (get_all_chunks w s) = Return cached /\
  snd (get_all_chunks w s) =
    (if _cache_loading s then s
     else record ThreadStart (set_cache_loading true s)) /\
  _cache_data (snd (get_all_chunks w s)) = Some cached /\
  _cache_timestamp (snd (get_all_chunks w s)) = _cache_timestamp s /\
  _cache_loading (snd (get_all_chunks w s)) = true /\
  journal (snd (get_all_chunks w s)) =
    journal s ++ (if _cache_loading s then [] else [ThreadStart]).
Proof.
  intros Hc Hlo Hhi. rewrite (stale_read w s cached Hc Hlo Hhi).
  destruct (_cache_loading s) eqn:Hl; cbn; rewrite ?Hc, ?Hl, ?app_nil_r;
    auto 10.
Qed.

(** The fresh path: below [CACHE_TTL] the snapshot is returned and the
    state is left as it is. *)
Lemma fresh_read w s cached :
  _cache_data s = Some cached ->
  (cache_age w s < CACHE_TTL)%Q ->
  get_all_chunks w s = (Return cached, s).
Proof.
  intros Hc Hlt. unfold cache_age in Hlt. apply Qltb_true in Hlt.
  unfold get_all_chunks, bind, get. cbn. rewrite Hc, Hlt. reflexivity.
Qed.

Lemma expired_read w s :
  _cache_data s = None \/ (CACHE_TTL * 2 <= cache_age w s)%Q ->
  get_all_chunks w s = _refresh_cache w s.
Proof.
  intros H. unfold get_all_chunks, bind, get. cbn.
  destruct (_cache_data s) as [cached|] eqn:Hc; [|reflexivity].
  destruct H as [H | H]; [discriminate|]. unfold cache_age in H.
  assert (Hge : (CACHE_TTL <= current_time w - _cache_timestamp s)%Q).
  { eapply Qle_trans; [|exact H]. unfold CACHE_TTL, Qle. cbn. lia. }
  apply Qltb_false in H. apply Qltb_false in Hge. rewrite Hge, H.
  reflexivity.
Qed.

(** C2, as the code has it: without a snapshot, or with one of age
    [2*TTL] or more, [get_all_chunks] is one synchronous
    [_refresh_cache] and starts no thread.  When the load succeeds the
    loaded chunks are installed, stamped and returned; when it raises
    and a snapshot exists, that previous snapshot is returned and stays
    installed; when it raises and there is none, the exception reaches
    the caller. *)
Theorem expired_read_refreshes w s :
  _cache_data s = None \/ (CACHE_TTL * 2 <= cache_age w s)%Q ->
  get_all_chunks w s = _refresh_cache w s /\
  (exists rs, journal (snd (get_all_chunks w s)) =
              journal s ++ log_records rs /\ rs <> []) /\
  match fst (load_data w s) with
  | Return chunks =>
      fst (get_all_chunks w s) = Return chunks /\
      _cache_data (snd (get_all_chunks w s)) = Some chunks /\
      _cache_timestamp (snd (get_all_chunks w s)) = refresh_time w /\
      _cache_loading (snd (get_all_chunks w s)) = false
  | Raise e =>
      match _cache_data s with
      | Some cached => fst (get_all_chunks w s) = Return cached
      | None => fst (get_all_chunks w s) = Raise e
      end /\
      _cache_data (snd (get_all_chunks w s)) = _cache_data s /\
      _cache_timestamp (snd (get_all_chunks w s)) = _cache_timestamp s /\
      _cache_loading (snd (get_all_chunks w s)) = false
  end.
Proof.
  intros H. rewrite (expired_read w s H). split; [reflexivity|]. split.
  - destruct (refresh_is_logged w s) as (rs & level & msg & Hj & Hin).
    exists rs. split; [exact Hj|]. intros ->. destruct Hin.
  - destruct (writes_log_load_data w) as (o & rs & Hlog).
    rewrite (refresh_cache_unfold w s o rs Hlog), Hlog.
    destruct o as [chunks | e]; cbn; [repeat split; reflexivity|].
    destruct (_cache_data s) eqn:Hc; cbn; rewrite ?Hc;
      repeat split; reflexivity.
Qed.
End CacheFacts.

(** ** Loader *)

Section LoaderFacts.
Context {rt : PyRuntime}.

Lemma load_source_missing w path tag acc s :
  file w path = Missing ->
  load_source w path tag acc s =
  (Return acc, record (Log WARNING (NotFoundSkipping path)) s).
Proof.
  intros Hf. unfold load_source, path_exists. rewrite Hf. reflexivity.
Qed.

(** What a source contributes when [load_source] returns. *)
Lemma load_source_returns w path tag acc out s s' :
  load_source w path tag acc s = (Return out, s') ->
  (file w path = Missing /\ out = acc) \/
  (exists df es,
      path_exists w path = true /\
      fst (load_csv_data w path s) = Return df /\
      split_data_into_chunks df tag = Return es /\
      out = acc ++ es).
Proof.
  unfold load_source, path_exists.
  destruct (file w path) as [|read_csv] eqn:Hf.
  - cbn. intros H. inversion H; subst. left. auto.
  - unfold bind, lift.
    destruct (load_csv_data w path s) as [[df|e] s1] eqn:Hl; [|discriminate].
    destruct (split_data_into_chunks df tag) as [es|e] eqn:Hs; [|discriminate].
    cbn. intros H. inversion H; subst. right. exists df, es. auto.
Qed.

Lemma load_source_raises w path tag acc e s s' :
  load_source w path tag acc s = (Raise e, s') ->
  e <> FileNotFoundError NoCsvFilesFound.
Proof.
  unfold load_source, path_exists.
  destruct (file w path) as [|read_csv] eqn:Hf; [discriminate|].
  unfold bind, lift.
  pose proof (load_csv_data_present w path read_csv s Hf) as Hp.
  destruct (load_csv_data w path s) as [[df|e1] s1] eqn:Hl.
  - destruct (split_data_into_chunks_spec df tag) as (es & Hs & _).
    rewrite Hs. discriminate.
  - intros H. inversion H; subst. cbn in Hp. congruence.
Qed.

Lemma load_data_all_missing w s :
  file w VERB_CSV_PATH = Missing ->
  file w ADJECTIVE_CSV_PATH = Missing ->
  load_data w s =
  (Raise (FileNotFoundError NoCsvFilesFound),
   extend [Log WARNING (NotFoundSkipping VERB_CSV_PATH);
           Log WARNING (NotFoundSkipping ADJECTIVE_CSV_PATH);
           Log ERROR NoCsvFiles] s).
Proof.
  intros Hv Ha. unfold load_data, bind.
  rewrite (load_source_missing w _ _ _ _ Hv).
  rewrite (load_source_missing w _ _ _ _ Ha).
  cbn. unfold extend, record. cbn. rewrite <- !app_assoc. reflexivity.
Qed.

(** When [load_data] raises the error of the empty source set, every
    configured path is missing or holds a frame without rows. *)
Lemma load_data_no_files_cause w s :
  fst (load_data w s) = Raise (FileNotFoundError NoCsvFilesFound) ->
  forall path,
    file w path = Missing \/
    exists df s0, fst (load_csv_data w path s0) = Return df /\ len df = 0.
Proof.
  unfold load_data, bind.
  destruct (load_source w VERB_CSV_PATH (py "verb") [] s)
    as [[a|e] s1] eqn:H1.
  2:{ cbn. intros H. inversion H; subst.
      exfalso. exact (load_source_raises _ _ _ _ _ _ _ H1 eq_refl). }
  destruct (load_source w ADJECTIVE_CSV_PATH (py "adjective") a s1)
    as [[b|e] s2] eqn:H2.
  2:{ cbn. intros H. inversion H; subst.
      exfalso. exact (load_source_raises _ _ _ _ _ _ _ H2 eq_refl). }
  destruct (Nat.eqb_spec (length b) 0) as [Hb | Hb]; [|discriminate].
  intros _. apply length_zero_iff_nil in Hb. subst b.
  assert (Hempty : forall df tag es,
             split_data_into_chunks df tag = Return es -> es = [] ->
             len df = 0).
  { intros df tag es Hs ->.
    destruct (split_data_into_chunks_spec df tag) as (es' & Hs' & _ & _ & Hl).
    rewrite Hs in Hs'. inversion Hs'; subst es'.
    destruct (Nat.eq_dec (len df) 0) as [E | E]; [exact E|].
    specialize (Hl 0 ltac:(lia)). cbn in Hl. lia. }
  destruct (load_source_returns _ _ _ _ _ _ _ H2)
    as [[Ha Ea] | (dfa & esa & _ & Hla & Hsa & Ea)];
    destruct (load_source_returns _ _ _ _ _ _ _ H1)
      as [[Hv Ev] | (dfv & esv & _ & Hlv & Hsv & Ev)];
    intros [|]; auto; right.
  - subst a. cbn in Ev. subst esv. exists dfv, s. eauto.
  - symmetry in Ea. apply app_eq_nil in Ea. destruct Ea as [_ Ea].
    exists dfa, s1. eauto.
  - symmetry in Ea. apply app_eq_nil in Ea. destruct Ea as [Ea _].
    subst a. cbn in Ev. subst esv. exists dfv, s. eauto.
  - symmetry in Ea. apply app_eq_nil in Ea. destruct Ea as [_ Ea].
    exists dfa, s1. eauto.
Qed.

(** C5, a source that exists without records: with a verb file holding
    only its header line and no adjective file, the verb path exists and
    [load_data] still raises the error whose message is "No CSV files
    found", because it tests the number of chunks, not of files. *)
Theorem header_only_source_reported_as_no_files s :
  path_exists header_only_world VERB_CSV_PATH = true /\
  fst (load_data header_only_world s) =
  Raise (FileNotFoundError NoCsvFilesFound).
Proof.
  split; reflexivity.
Qed.
End LoaderFacts.

(** ** Slugs *)

Lemma suffix_clash (b1 b2 : pystr) :
  b1 ++ hyphen :: py "verb" <> b2 ++ hyphen :: py "adjective".
Proof.
  intros H. apply (f_equal (@rev char)) in H.
  rewrite !rev_app_distr in H. cbn in H. inversion H.
Qed.

Section SlugFacts.
Context {rt : PyRuntime}.

Lemma entry_spec_tagged df src e :
  src = py "verb" \/ src = py "adjective" ->
  entry_spec df src e -> tagged e.
Proof.
  intros Hsrc H. unfold entry_spec in H.
  destruct (rows (data e)); [contradiction|].
  destruct H as (_ & _ & Hslug & Hs & _). unfold tagged.
  rewrite Hs, Hslug. split; [exact Hsrc|].
  destruct Hsrc as [-> | ->]; reflexivity.
Qed.

Lemma load_source_tagged w path tag acc out s s' :
  tag = py "verb" \/ tag = py "adjective" ->
  load_source w path tag acc s = (Return out, s') ->
  Forall tagged acc -> Forall tagged out.
Proof.
  intros Htag H Hacc.
  destruct (load_source_returns w path tag acc out s s' H)
    as [[_ ->] | (df & es & _ & _ & Hs & ->)]; [exact Hacc|].
  apply Forall_app. split; [exact Hacc|].
  destruct (split_data_into_chunks_spec df tag) as (es' & Hs' & Hall & _).
  rewrite Hs in Hs'. inversion Hs'; subst es'.
  eapply Forall_impl; [|exact Hall].
  intros e He. eapply entry_spec_tagged; eauto.
Qed.

Lemma load_data_tagged w s chunks s' :
  load_data w s = (Return chunks, s') -> Forall tagged chunks.
Proof.
  unfold load_data, bind.
  destruct (load_source w VERB_CSV_PATH (py "verb") [] s)
    as [[a|e] s1] eqn:H1; [|discriminate].
  destruct (load_source w ADJECTIVE_CSV_PATH (py "adjective") a s1)
    as [[b|e] s2] eqn:H2; [|discriminate].
  destruct (length b =? 0); [discriminate|].
  cbn. intros H. inversion H; subst.
  eapply load_source_tagged; [right; reflexivity | exact H2 |].
  eapply load_source_tagged; [left; reflexivity | exact H1 |].
  constructor.
Qed.

Lemma tagged_sources_differ e1 e2 :
  tagged e1 -> tagged e2 -> source e1 <> source e2 -> slug e1 <> slug e2.
Proof.
  intros [Hs1 E1] [Hs2 E2] Hne. rewrite E1, E2.
  destruct Hs1 as [S1 | S1], Hs2 as [S2 | S2]; rewrite S1, S2 in *;
    try congruence.
  - apply suffix_clash.
  - intros H. symmetry in H. revert H. apply suffix_clash.
Qed.

(** C8, as the code has it: every entry [load_data] returns carries the
    tag of its source, and its slug is the base slug of its title
    followed by "-verb" or "-adjective"; two entries of different
    sources never share a slug; and when no two entries of one source
    have the same base slug, all slugs of the snapshot are pairwise
    distinct. *)
Theorem slugs_carry_source_suffix w s chunks s' :
  load_data w s = (Return chunks, s') ->
  Forall (fun e =>
            (source e = py "verb" \/ source e = py "adjective") /\
            slug e = base_slug_of (title e) ++ hyphen :: source e) chunks /\
  (forall e1 e2, In e1 chunks -> In e2 chunks ->
                 source e1 <> source e2 -> slug e1 <> slug e2) /\
  ((forall i j e1 e2,
       i < j ->
       nth_error chunks i = Some e1 -> nth_error chunks j = Some e2 ->
       source e1 = source e2 ->
       base_slug_of (title e1) <> base_slug_of (title e2)) ->
   NoDup (map slug chunks)).
Proof.
  intros Hload. pose proof (load_data_tagged w s chunks s' Hload) as Hall.
  split; [exact Hall|]. rewrite Forall_forall in Hall. split.
  - intros e1 e2 H1 H2. apply tagged_sources_differ; auto.
  - intros Hbase.
    assert (Hpair : forall i j e1 e2,
               i < j -> nth_error chunks i = Some e1 ->
               nth_error chunks j = Some e2 -> slug e1 <> slug e2).
    { intros i j e1 e2 Hij H1 H2 Heq.
      pose proof (Hall e1 (nth_error_In _ _ H1)) as T1.
      pose proof (Hall e2 (nth_error_In _ _ H2)) as T2.
      destruct (list_eq_dec N.eq_dec (source e1) (source e2))
        as [Hsrc | Hne];
        [|exact (tagged_sources_differ e1 e2 T1 T2 Hne Heq)].
      apply (Hbase i j e1 e2 Hij H1 H2 Hsrc).
      destruct T1 as [_ E1], T2 as [_ E2].
      rewrite E1, E2, Hsrc in Heq. apply app_inv_tail in Heq. exact Heq. }
    apply NoDup_nth_error. intros i j Hi Hnth.
    rewrite length_map in Hi. rewrite !nth_error_map in Hnth.
    destruct (nth_error chunks i) as [e1|] eqn:H1;
      [|apply nth_error_None in H1; lia].
    destruct (nth_error chunks j) as [e2|] eqn:H2; [|discriminate].
    cbn in Hnth. inversion Hnth as [Heq].
    destruct (Nat.lt_trichotomy i j) as [Hlt | [-> | Hgt]].
    + exfalso. apply (Hpair i j e1 e2 Hlt H1 H2 Heq).
    + reflexivity.
    + exfalso. apply (Hpair j i e2 e1 Hgt H2 H1). symmetry. exact Heq.
Qed.
End SlugFacts.

(** C8 fails for titles: the groups titled "A" and "a" of one source have
    different titles and the same slug. *)
Lemma distinct_titles_equal_slugs :
  exists chunks s',
    load_data (rt := ascii_runtime) cased_world initial_state
    = (Return chunks, s') /\
    NoDup (map title chunks) /\
    ~ NoDup (map slug chunks).
Proof.
  eexists. eexists. split; [vm_compute; reflexivity|]. cbn. split.
  - constructor; [|constructor; [intros []|constructor]].
    intros [H | []]. discriminate.
  - intros H. inversion H as [|x l Hn _]. apply Hn. left. reflexivity.
Qed.

(** ** Refresh threshold *)

Section ThresholdFacts.
Context {rt : PyRuntime}.

(** C6, as the code has it: the constants are [CACHE_TTL = 600] and
    [CACHE_REFRESH_THRESHOLD = 540], and [get_all_chunks] does not consult
    the second.  For every age below [CACHE_TTL], the ages between 540
    and 600 seconds included, the snapshot is returned and no refresh is
    triggered; a background refresh is triggered from [CACHE_TTL] on,
    below twice that, when none is in flight. *)
Theorem refresh_waits_for_ttl w s cached :
  _cache_data s = Some cached ->
  CACHE_TTL = 600%Q /\
  CACHE_REFRESH_THRESHOLD = 540%Q /\
  ((cache_age w s < CACHE_TTL)%Q ->
   get_all_chunks w s = (Return cached, s)) /\
  ((CACHE_TTL <= cache_age w s)%Q ->
   (cache_age w s < CACHE_TTL * 2)%Q ->
   _cache_loading s = false ->
   get_all_chunks w s =
   (Return cached, record ThreadStart (set_cache_loading true s))).
Proof.
  intros Hc. split; [reflexivity|]. split; [reflexivity|]. split.
  - apply fresh_read. exact Hc.
  - intros Hlo Hhi Hl.
    rewrite (stale_read w s cached Hc Hlo Hhi), Hl. reflexivity.
Qed.
End ThresholdFacts.

(** ** Initializer *)

Section InitializerFacts.
Context {rt : PyRuntime}.


Lemma wait_loop_in_flight polls s :
  _initialized s = false ->
  _cache_loading s && is_not_None (_cache_data s) = true ->
  wait_loop (S polls) s = (Return true, set_initialized true s).
Proof.
  intros Hi Hc. cbn [wait_loop]. unfold bind, get. cbn.
  rewrite Hi, Hc. reflexivity.
Qed.



(** The situation the waiting loop accepts: the first poll marks the
    process initialized and returns, whatever the files are. *)
Lemma in_flight_refresh_counts_as_warm w s polls :
  _initialized s = false ->
  _cache_loading s = true ->
  _cache_data s <> None ->
  ensure_initialized w (S polls) s = (Return tt, set_initialized true s).
Proof.
  intros Hi Hl Hd.
  assert (Hc : _cache_loading s && is_not_None (_cache_data s) = true).
  { rewrite Hl. destruct (_cache_data s); [reflexivity | congruence]. }
  unfold ensure_initialized, bind, get. cbn -[wait_loop]. rewrite Hi.
  rewrite (wait_loop_in_flight polls s Hi Hc). reflexivity.
Qed.
End InitializerFacts.


(** ** Search page *)

Lemma lstrip_all drop s : forallb drop s = true -> lstrip drop s = [].
Proof.
  induction s as [|c s IH]; [reflexivity|]. cbn.
  intros H. apply andb_true_iff in H. destruct H as [Hc Hs].
  rewrite Hc. auto.
Qed.

Section SearchFacts.
Context {rt : PyRuntime}.

Lemma strip_blank q : forallb is_space q = true -> str_strip q = [].
Proof.
  intros H. unfold str_strip, strip_with. rewrite (lstrip_all _ _ H).
  reflexivity.
Qed.

(** The empty query and every query made of whitespace only yield no
    result, whatever the snapshot. *)
Lemma search_blank q chunks :
  forallb is_space q = true -> search q chunks = [].
Proof.
  intros H. unfold search. rewrite (strip_blank q H). reflexivity.
Qed.

Lemma columns_loop_compiled query_lower found_in df cols :
  re_compile query_lower = Some found_in ->
  columns_loop query_lower df cols =
  Return (existsb (fun j => existsb found_in (column_values df j)) cols).
Proof.
  intros Hre. induction cols as [|j cols IH]; [reflexivity|].
  cbn [columns_loop existsb]. unfold column_contains. rewrite Hre.
  destruct (existsb found_in (column_values df j)); [reflexivity|exact IH].
Qed.

Lemma chunk_matches_literal query_lower e :
  forallb (fun c => negb (is_regex_special c)) query_lower = true ->
  chunk_matches query_lower e = Return (literal_match query_lower e).
Proof.
  intros Hlit. unfold chunk_matches, literal_match.
  destruct (contains query_lower (str_lower (title e))); [reflexivity|].
  apply columns_loop_compiled. unfold re_compile. rewrite Hlit.
  reflexivity.
Qed.

Lemma search_loop_literal query_lower chunks results :
  forallb (fun c => negb (is_regex_special c)) query_lower = true ->
  search_loop query_lower chunks results =
  results ++ filter (literal_match query_lower) chunks.
Proof.
  intros Hlit. revert results.
  induction chunks as [|e chunks IH]; intros results; cbn [search_loop filter].
  - rewrite app_nil_r. reflexivity.
  - rewrite (chunk_matches_literal query_lower e Hlit).
    destruct (literal_match query_lower e); rewrite IH;
      [rewrite <- app_assoc|]; reflexivity.
Qed.

Lemma literal_match_no_gaps query_lower e :
  (forall row j, In row (rows (data e)) ->
                 j < length (columns (data e)) -> nth j row NaN <> NaN) ->
  literal_match query_lower e = substring_match query_lower e.
Proof.
  intros Hfull. unfold literal_match, substring_match. f_equal.
  apply eq_iff_eq_true. rewrite !existsb_exists. split.
  - intros (j & Hj & Hex). apply existsb_exists in Hex.
    destruct Hex as (v & Hv & Hc). unfold column_values in Hv.
    apply in_map_iff in Hv. destruct Hv as (row & <- & Hrow).
    exists row. split; [exact Hrow|]. apply existsb_exists.
    exists j. split; [exact Hj|].
    apply in_seq in Hj. specialize (Hfull row j Hrow ltac:(lia)).
    destruct (nth j row NaN); [congruence | exact Hc].
  - intros (row & Hrow & Hex). apply existsb_exists in Hex.
    destruct Hex as (j & Hj & Hc).
    exists j. split; [exact Hj|]. apply existsb_exists.
    exists (str_lower (py_str (nth j row NaN))). split.
    + unfold column_values. apply in_map_iff. exists row. auto.
    + destruct (nth j row NaN); [discriminate | exact Hc].
Qed.

(** Where the interface is met: for a query that is not blank and has no
    special character of the pattern syntax, over a snapshot without
    missing cells, the results are the entries whose title or some cell
    contains the folded query, in snapshot order. *)
Lemma search_is_substring_filter q chunks :
  str_strip q <> [] ->
  forallb (fun c => negb (is_regex_special c)) (str_lower (str_strip q))
  = true ->
  (forall e row j, In e chunks -> In row (rows (data e)) ->
                   j < length (columns (data e)) -> nth j row NaN <> NaN) ->
  search q chunks =
  filter (substring_match (str_lower (str_strip q))) chunks.
Proof.
  intros Hq Hlit Hfull. unfold search.
  destruct (str_strip q) as [|c query] eqn:E; [congruence|].
  rewrite (search_loop_literal _ chunks [] Hlit). cbn [app].
  apply filter_ext_in. intros e He. apply literal_match_no_gaps.
  intros row j. apply Hfull. exact He.
Qed.

(** C7, a query with a special character: under any pattern engine in
    which "." matches the text "abc" (in Python's it matches every
    character but a newline), the query "." returns an entry although
    "." occurs neither in its title nor in any of its cells. *)
Theorem dot_query_matches_without_occurrence found_in :
  regex_engine (py ".") = Some found_in ->
  found_in (py "abc") = true ->
  search (py ".") [abc_entry] = [abc_entry] /\
  substring_match (str_lower (str_strip (py "."))) abc_entry = false.
Proof.
  intros Hre Hf. split; [|reflexivity].
  assert (Hcols : columns_loop (py ".") (data abc_entry)
                    (seq 0 (length (columns (data abc_entry))))
                  = Return true).
  { rewrite (columns_loop_compiled (py ".") found_in _ _ Hre).
    change (seq 0 (length (columns (data abc_entry)))) with [0].
    cbn [existsb].
    change (column_values (data abc_entry) 0) with [py "abc"].
    cbn [existsb]. rewrite Hf. reflexivity. }
  assert (Hm : chunk_matches (py ".") abc_entry = Return true).
  { unfold chunk_matches.
    change (contains (py ".") (str_lower (title abc_entry))) with false.
    exact Hcols. }
  change (search (py ".") [abc_entry]) with
    (match chunk_matches (py ".") abc_entry with
     | Return true => [abc_entry]
     | _ => []
     end).
  rewrite Hm. reflexivity.
Qed.

(** A query that does not compile as a pattern loses the entries it
    occurs in, unless it occurs in their title: "(" is not a pattern. *)
Lemma invalid_pattern_skips_chunk :
  regex_engine (py "(") = None ->
  search (py "(") [paren_entry] = [] /\
  substring_match (str_lower (str_strip (py "("))) paren_entry = true.
Proof.
  intros Hre. split; [|reflexivity].
  assert (Hm : chunk_matches (py "(") paren_entry = Raise ReError).
  { unfold chunk_matches.
    change (contains (py "(") (str_lower (title paren_entry))) with false.
    change (seq 0 (length (columns (data paren_entry)))) with [0].
    cbn [columns_loop]. unfold column_contains.
    change (re_compile (py "(")) with (regex_engine (py "(")).
    rewrite Hre. reflexivity. }
  change (search (py "(") [paren_entry]) with
    (match chunk_matches (py "(") paren_entry with
     | Return true => [paren_entry]
     | _ => []
     end).
  rewrite Hm. reflexivity.
Qed.

(** A missing cell is searched as the text "nan". *)
Lemma nan_query_matches_missing_cell :
  search (py "nan") [gap_entry] = [gap_entry] /\
  substring_match (str_lower (str_strip (py "nan"))) gap_entry = false.
Proof. split; reflexivity. Qed.

Lemma index_serves_search w_init w polls q s cached :
  _initialized s = true ->
  _cache_data s = Some cached ->
  (cache_age w s < CACHE_TTL)%Q ->
  index w_init w polls q s =
  (Return (IndexPage (str_strip q) (search q cached)), s).
Proof.
  intros Hi Hc Hage. unfold index, try_except, bind at 1.
  unfold ensure_initialized, bind at 1, get. rewrite Hi. cbn [ret].
  unfold search. destruct (str_strip q) as [|c query]; [reflexivity|].
  unfold bind, try_except. rewrite (fresh_read w s cached Hc Hage).
  reflexivity.
Qed.
End SearchFacts.


(** ** Closed evaluations *)

(** C6 fails at age 550: the age exceeds the threshold of 540 seconds, is
    below twice the TTL, no refresh is in flight, and the read leaves the
    state as it is: no thread is started and nothing is reloaded. *)
Lemma threshold_is_not_consulted :
  (CACHE_REFRESH_THRESHOLD
   < cache_age (empty_world 550) (warm_state [abc_entry]))%Q /\
  (cache_age (empty_world 550) (warm_state [abc_entry]) < CACHE_TTL * 2)%Q /\
  _cache_loading (warm_state [abc_entry]) = false /\
  get_all_chunks (rt := ascii_runtime) (empty_world 550)
                 (warm_state [abc_entry])
  = (Return [abc_entry], warm_state [abc_entry]).
Proof.
  split; [reflexivity|]. split; [reflexivity|]. split; reflexivity.
Qed.

(** C2 fails when the reload fails: at age 1200 with both files gone, the
    load raises and the read returns the snapshot that was cached
    before. *)
Lemma expired_read_serves_old_snapshot :
  (CACHE_TTL * 2
   <= cache_age (empty_world 1200) (warm_state [abc_entry]))%Q /\
  _cache_data (warm_state [abc_entry]) = Some [abc_entry] /\
  fst (load_data (rt := ascii_runtime) (empty_world 1200)
                 (warm_state [abc_entry]))
  = Raise (FileNotFoundError NoCsvFilesFound) /\
  fst (get_all_chunks (rt := ascii_runtime) (empty_world 1200)
                      (warm_state [abc_entry]))
  = Return [abc_entry].
Proof.
  split; [unfold Qle; cbn; lia|].
  split; [reflexivity|]. split; reflexivity.
Qed.


(** C1 at age 700 with no refresh in flight: the snapshot is returned and
    one thread is started. *)
Lemma stale_read_witness :
  _cache_data (warm_state [abc_entry]) = Some [abc_entry] /\
  (CACHE_TTL <= cache_age (empty_world 700) (warm_state [abc_entry]))%Q /\
  (cache_age (empty_world 700) (warm_state [abc_entry]) < CACHE_TTL * 2)%Q /\
  fst (get_all_chunks (rt := ascii_runtime) (empty_world 700)
                      (warm_state [abc_entry])) = Return [abc_entry] /\
  journal (snd (get_all_chunks (rt := ascii_runtime) (empty_world 700)
                               (warm_state [abc_entry]))) = [ThreadStart].
Proof.
  assert (Hlo : (CACHE_TTL <= cache_age (empty_world 700)
                                        (warm_state [abc_entry]))%Q).
  { unfold Qle. cbn. lia. }
  assert (Hhi : (cache_age (empty_world 700) (warm_state [abc_entry])
                 < CACHE_TTL * 2)%Q).
  { unfold Qlt. cbn. lia. }
  destruct (stale_read_serves_snapshot (rt := ascii_runtime)
              (empty_world 700) (warm_state [abc_entry]) [abc_entry]
              eq_refl Hlo Hhi) as (H1 & _ & _ & _ & _ & H6).
  split; [reflexivity|]. split; [exact Hlo|]. split; [exact Hhi|].
  split; [exact H1 | exact H6].
Defined.

(** C2 on a cold cache with both files in place. *)
Lemma expired_read_witness :
  _cache_data initial_state = None /\
  get_all_chunks (rt := ascii_runtime) suru_world initial_state
  = _refresh_cache (rt := ascii_runtime) suru_world initial_state.
Proof.
  split; [reflexivity|].
  exact (proj1 (expired_read_refreshes (rt := ascii_runtime) suru_world
                  initial_state (or_introl eq_refl))).
Defined.

(** C3 with a snapshot installed and both files gone. *)
Lemma refresh_failure_witness :
  load_data (rt := ascii_runtime) (empty_world 0) (warm_state [abc_entry])
  = (Raise (FileNotFoundError NoCsvFilesFound),
     extend [Log WARNING (NotFoundSkipping VERB_CSV_PATH);
             Log WARNING (NotFoundSkipping ADJECTIVE_CSV_PATH);
             Log ERROR NoCsvFiles] (warm_state [abc_entry])) /\
  _cache_loading (snd (_refresh_cache (rt := ascii_runtime) (empty_world 0)
                                      (warm_state [abc_entry]))) = false /\
  fst (_refresh_cache (rt := ascii_runtime) (empty_world 0)
                      (warm_state [abc_entry])) = Return [abc_entry].
Proof.
  split; [reflexivity|].
  destruct (refresh_failure_keeps_snapshot (rt := ascii_runtime)
              (empty_world 0) (warm_state [abc_entry]) _ _ eq_refl)
    as (Hflag & _ & _ & Hret & _).
  split; [exact Hflag | exact (Hret [abc_entry] eq_refl)].
Defined.

(** C6 one second before the TTL, 59 seconds after the threshold. *)
Lemma refresh_waits_witness :
  _cache_data (warm_state [abc_entry]) = Some [abc_entry] /\
  get_all_chunks (rt := ascii_runtime) (empty_world 599)
                 (warm_state [abc_entry])
  = (Return [abc_entry], warm_state [abc_entry]).
Proof.
  split; [reflexivity|].
  destruct (refresh_waits_for_ttl (rt := ascii_runtime) (empty_world 599)
              (warm_state [abc_entry]) [abc_entry] eq_refl)
    as (_ & _ & Hfresh & _).
  apply Hfresh. unfold Qlt. cbn. lia.
Defined.

(** C8 on the two files that both hold the title "suru". *)
Lemma slugs_witness :
  match load_data (rt := ascii_runtime) suru_world initial_state with
  | (Return chunks, _) =>
      map slug chunks = [py "suru-verb"; py "suru-adjective"] /\
      NoDup (map slug chunks)
  | (Raise _, _) => False
  end.
Proof.
  destruct (load_data (rt := ascii_runtime) suru_world initial_state)
    as [[chunks | e] s'] eqn:E.
  - destruct (slugs_carry_source_suffix (rt := ascii_runtime) suru_world
                initial_state chunks s' E) as (_ & _ & Hnodup).
    vm_compute in E. inversion E; subst chunks. clear E.
    split; [reflexivity|]. apply Hnodup.
    intros [|[|i]] [|[|j]] e1 e2 Hij Hi Hj Hsrc; try lia;
      cbn in Hi, Hj; try discriminate;
      try (destruct i; discriminate); try (destruct j; discriminate).
    inversion Hi; subst e1. inversion Hj; subst e2. discriminate Hsrc.
  - vm_compute in E. discriminate E.
Defined.


(** C10 on a frame whose first record has no second cell. *)
Lemma subtitle_witness :
  exists entries e,
    split_data_into_chunks (rt := ascii_runtime) suru_verbs (py "verb")
    = Return entries /\
    1 < length (columns suru_verbs) /\
    nth_error entries 0 = Some e /\
    subtitle e = [].
Proof.
  eexists. eexists.
  split; [vm_compute; reflexivity|].
  split; [cbn; lia|].
  split; [reflexivity|].
  apply (subtitle_skips_missing_cell (rt := ascii_runtime) suru_verbs
           (py "verb") _ 0 _ eq_refl).
  - cbn. lia.
  - reflexivity.
Defined.

(** C7 under a pattern engine that knows ".". *)
Lemma dot_query_witness :
  regex_engine (PyRuntime := dot_runtime) (py ".")
  = Some (existsb (fun c => negb (c =? newline)%N)) /\
  search (rt := dot_runtime) (py ".") [abc_entry] = [abc_entry].
Proof.
  split; [reflexivity|].
  apply (dot_query_matches_without_occurrence (rt := dot_runtime)
           (existsb (fun c => negb (c =? newline)%N)));
    reflexivity.
Defined.

(** * Further properties *)

(** ** Text *)

Lemma list_eqb_eq a b : list_eqb a b = true <-> a = b.
Proof.
  revert b. induction a as [|x a IH]; intros [|y b]; cbn;
    try (split; [discriminate | discriminate]); [split; reflexivity|].
  rewrite andb_true_iff, N.eqb_eq, IH. split.
  - intros [-> ->]. reflexivity.
  - intros H. inversion H. auto.
Qed.

Lemma lstrip_suffix drop s : exists pre, s = pre ++ lstrip drop s.
Proof.
  induction s as [|c s [pre IH]]; [exists []; reflexivity|].
  cbn. destruct (drop c).
  - exists (c :: pre). cbn. f_equal. exact IH.
  - exists []. reflexivity.
Qed.

Lemma lstrip_head drop s c s' : lstrip drop s = c :: s' -> drop c = false.
Proof.
  induction s as [|x s IH]; [discriminate|]. cbn.
  destruct (drop x) eqn:E; [exact IH|].
  intros H. inversion H; subst. exact E.
Qed.

(** What is left by [strip_with] is a stretch of the text that neither
    starts nor ends with a stripped character. *)
Lemma strip_with_spec drop s :
  (exists pre post, s = pre ++ strip_with drop s ++ post) /\
  trimmed drop (strip_with drop s).
Proof.
  unfold strip_with, rstrip.
  destruct (lstrip_suffix drop s) as [pre Hpre].
  destruct (lstrip_suffix drop (rev (lstrip drop s))) as [post Hpost].
  split.
  - exists pre, (rev post). rewrite <- rev_app_distr, <- Hpost, rev_involutive.
    exact Hpre.
  - split.
    + intros c s' H.
      assert (Hmid : lstrip drop s = rev (lstrip drop (rev (lstrip drop s)))
                                     ++ rev post).
      { rewrite <- rev_app_distr, <- Hpost, rev_involutive. reflexivity. }
      rewrite H in Hmid. cbn in Hmid.
      destruct (lstrip drop s) as [|x rest] eqn:E; [discriminate|].
      inversion Hmid; subst x. exact (lstrip_head drop s c rest E).
    + intros c s' H. apply (f_equal (@rev char)) in H.
      rewrite rev_involutive, rev_app_distr in H. cbn in H.
      exact (lstrip_head drop _ c _ H).
Qed.

Lemma no_adjacent_app c a b :
  no_adjacent c (a ++ b) -> no_adjacent c a /\ no_adjacent c b.
Proof.
  induction a as [|x a IH]; cbn [app]; [intros H; split; [exact I | exact H]|].
  intros [Hx Hrest]. destruct (IH Hrest) as [Ha Hb].
  split; [|exact Hb]. split; [|exact Ha].
  destruct a as [|y a']; [exact I|]. exact Hx.
Qed.

Section SlugShape.
Context {rt : PyRuntime}.

Lemma collapse_separators_chars in_run s :
  Forall (fun c => c = hyphen \/ (In c s /\ is_separator c = false))
         (collapse_separators in_run s).
Proof.
  revert in_run. induction s as [|c s IH]; intros in_run; cbn; [constructor|].
  assert (Hw : forall b,
             Forall (fun x => x = hyphen \/
                              (In x (c :: s) /\ is_separator x = false))
                    (collapse_separators b s)).
  { intros b. eapply Forall_impl; [|apply IH].
    intros x [Hx | [Hx Hs]]; [left; exact Hx | right; split; [right|]; auto]. }
  destruct (is_separator c) eqn:E.
  - destruct in_run; [apply Hw|]. constructor; [left; reflexivity | apply Hw].
  - constructor; [right; split; [left; reflexivity | exact E] | apply Hw].
Qed.

Lemma collapse_separators_runs in_run s :
  no_adjacent hyphen (collapse_separators in_run s) /\
  (in_run = true ->
   forall c r, collapse_separators in_run s = c :: r -> c <> hyphen).
Proof.
  revert in_run. induction s as [|c s IH]; intros in_run; cbn.
  - split; [exact I | discriminate].
  - destruct (is_separator c) eqn:E.
    + destruct in_run.
      * apply IH.
      * destruct (IH true) as [Hna Hhd]. split; [|discriminate].
        cbn [no_adjacent]. split; [|exact Hna].
        destruct (collapse_separators true s) as [|y r] eqn:Ey; [exact I|].
        intros [_ Hy]. exact (Hhd eq_refl y r eq_refl Hy).
    + assert (Hc : c <> hyphen).
      { intros ->. unfold is_separator in E. rewrite N.eqb_refl in E.
        discriminate. }
      destruct (IH false) as [Hna _]. split.
      * cbn [no_adjacent]. split; [|exact Hna].
        destruct (collapse_separators false s); [exact I|].
        intros [Hx _]. exact (Hc Hx).
      * intros _ x r H. inversion H; subst. exact Hc.
Qed.

(** X1: the base slug of any title is made of word characters that are
    not whitespace and of hyphens; it never has two hyphens in a row and
    neither starts nor ends with a hyphen. *)
Theorem base_slug_shape title :
  Forall (fun c => c = hyphen \/ (is_word c = true /\ is_space c = false))
         (base_slug_of title) /\
  no_adjacent hyphen (base_slug_of title) /\
  (forall c s, base_slug_of title = c :: s -> c <> hyphen) /\
  (forall c s, base_slug_of title = s ++ [c] -> c <> hyphen).
Proof.
  unfold base_slug_of.
  set (kept := remove_non_word (str_lower title)).
  set (joined := collapse_separators false kept).
  destruct (strip_with_spec (fun c => (c =? hyphen)%N) joined)
    as [(pre & post & Hmid) [Hhd Htl]].
  assert (Hchars : Forall (fun c => c = hyphen \/
                                    (is_word c = true /\ is_space c = false))
                          joined).
  { eapply Forall_impl; [|apply collapse_separators_chars].
    intros c [Hc | [Hin Hsep]]; [left; exact Hc | right].
    unfold kept, remove_non_word in Hin. apply filter_In in Hin.
    destruct Hin as [_ Hk]. unfold is_separator in Hsep.
    apply orb_false_iff in Hsep. destruct Hsep as [Hh Hs].
    rewrite Hh, Hs in Hk. rewrite !orb_false_r in Hk. auto. }
  pose proof (proj1 (collapse_separators_runs false kept)) as Hruns.
  fold joined in Hruns. rewrite Hmid in Hchars, Hruns.
  apply Forall_app in Hchars. destruct Hchars as [_ Hchars].
  apply Forall_app in Hchars. destruct Hchars as [Hchars _].
  apply no_adjacent_app in Hruns. destruct Hruns as [_ Hruns].
  apply no_adjacent_app in Hruns. destruct Hruns as [Hruns _].
  split; [exact Hchars|]. split; [exact Hruns|]. split.
  - intros c s H Hc. specialize (Hhd c s H). subst c.
    rewrite N.eqb_refl in Hhd. discriminate.
  - intros c s H Hc. specialize (Htl c s H). subst c.
    rewrite N.eqb_refl in Htl. discriminate.
Qed.
End SlugShape.

(** ** Loader *)

Lemma try_encodings_some path read_csv encs s df :
  fst (try_encodings path read_csv encs s) = Return (Some df) <->
  exists pre encoding post,
    encs = pre ++ encoding :: post /\
    (forall e d, In e pre -> read_csv e <> Parsed d) /\
    read_csv encoding = Parsed df.
Proof.
  revert s. induction encs as [|enc encs IH]; intros s; cbn [try_encodings].
  - split; [discriminate|]. intros (pre & e & post & H & _).
    destruct pre; discriminate.
  - assert (Hskip : forall s1,
               (forall d, read_csv enc <> Parsed d) ->
               fst (try_encodings path read_csv encs s1) = Return (Some df) <->
               exists pre encoding post,
                 enc :: encs = pre ++ encoding :: post /\
                 (forall e d, In e pre -> read_csv e <> Parsed d) /\
                 read_csv encoding = Parsed df).
    { intros s1 Hfail. rewrite IH. split.
      - intros (pre & e & post & -> & Hpre & He).
        exists (enc :: pre), e, post. split; [reflexivity|]. split; [|exact He].
        intros x d [<- | Hx]; [apply Hfail | apply Hpre; exact Hx].
      - intros (pre & e & post & Heq & Hpre & He).
        destruct pre as [|x pre]; cbn in Heq; inversion Heq; subst.
        + exfalso. exact (Hfail df He).
        + exists pre, e, post. split; [reflexivity|]. split; [|exact He].
          intros y d Hy. apply Hpre. right. exact Hy. }
    destruct (read_csv enc) as [d| |] eqn:E.
    + cbn. split.
      * intros H. inversion H; subst d.
        exists [], enc, encs. split; [reflexivity|]. split; [intros ? ? []|].
        exact E.
      * intros (pre & e & post & Heq & Hpre & He).
        destruct pre as [|x pre]; cbn in Heq; inversion Heq; subst.
        -- rewrite E in He. inversion He. reflexivity.
        -- exfalso. apply (Hpre x d); [left; reflexivity | exact E].
    + apply Hskip. intros d. discriminate.
    + unfold bind, logger, modify. apply Hskip. intros d. discriminate.
Qed.

Lemma try_encodings_none path read_csv encs s :
  fst (try_encodings path read_csv encs s) = Return None <->
  forall e d, In e encs -> read_csv e <> Parsed d.
Proof.
  revert s. induction encs as [|enc encs IH]; intros s; cbn [try_encodings].
  - split; [intros _ ? ? [] | reflexivity].
  - destruct (read_csv enc) as [d| |] eqn:E.
    + cbn. split; [discriminate|]. intros H. exfalso.
      apply (H enc d); [left; reflexivity | exact E].
    + rewrite IH. split.
      * intros H e d [<- | He]; [rewrite E; discriminate | apply H; exact He].
      * intros H e d He. apply H. right. exact He.
    + unfold bind, logger, modify. rewrite IH. split.
      * intros H e d [<- | He]; [rewrite E; discriminate | apply H; exact He].
      * intros H e d He. apply H. right. exact He.
Qed.

(** The outcome of [load_csv_data] read off the loop over encodings. *)
Lemma load_csv_data_outcome w path s :
  fst (load_csv_data w path s) =
  match file w path with
  | Missing => Raise (FileNotFoundError (CsvFileNotFound path))
  | Present read_csv =>
      match fst (try_encodings path read_csv encodings s) with
      | Return (Some df) => Return df
      | Return None => Raise ValueError
      | Raise e => Raise e
      end
  end.
Proof.
  unfold load_csv_data, try_except, bind.
  destruct (file w path) as [|read_csv]; [reflexivity|].
  destruct (try_encodings_returns path read_csv encodings s) as [df Hdf].
  destruct (try_encodings path read_csv encodings s) as [o s1].
  cbn in Hdf. subst o. destruct df; reflexivity.
Qed.

Lemma every_encoding_tried e : In e encodings.
Proof. destruct e; cbn; auto 10. Qed.

(** X2: the file at an existing path is read with the first encoding, in
    the order utf-8, utf-8-sig, shift_jis, cp932, latin-1, under which
    [read_csv] succeeds: [load_csv_data] returns a frame exactly when
    that frame is what [read_csv] gives under an encoding before which
    every encoding failed. *)
Theorem load_csv_data_takes_first_encoding w path read_csv s df :
  file w path = Present read_csv ->
  (fst (load_csv_data w path s) = Return df <->
   exists pre encoding post,
     encodings = pre ++ encoding :: post /\
     (forall e d, In e pre -> read_csv e <> Parsed d) /\
     read_csv encoding = Parsed df).
Proof.
  intros Hf. rewrite load_csv_data_outcome, Hf.
  rewrite <- (try_encodings_some path read_csv encodings s df).
  destruct (try_encodings_returns path read_csv encodings s) as [r Hr].
  rewrite Hr. destruct r as [d|].
  - split; intros H; inversion H; reflexivity.
  - split; discriminate.
Qed.

(** X3: [load_csv_data] raises in two ways only: [FileNotFoundError]
    naming the path, exactly when the path is missing, and [ValueError],
    exactly when the file is there and no encoding parses it. *)
Theorem load_csv_data_errors w path s :
  (file w path = Missing ->
   fst (load_csv_data w path s)
   = Raise (FileNotFoundError (CsvFileNotFound path))) /\
  (forall read_csv, file w path = Present read_csv -> unreadable read_csv ->
                    fst (load_csv_data w path s) = Raise ValueError) /\
  (forall e, fst (load_csv_data w path s) = Raise e ->
             (e = FileNotFoundError (CsvFileNotFound path) /\
              file w path = Missing) \/
             (e = ValueError /\
              exists read_csv, file w path = Present read_csv /\
                               unreadable read_csv)).
Proof.
  rewrite load_csv_data_outcome. split; [intros ->; reflexivity|]. split.
  - intros read_csv -> Hbad.
    assert (H : fst (try_encodings path read_csv encodings s) = Return None).
    { apply try_encodings_none. intros e d _. apply Hbad. }
    rewrite H. reflexivity.
  - intros e. destruct (file w path) as [|read_csv] eqn:Hf.
    + intros H. inversion H. left. auto.
    + destruct (try_encodings_returns path read_csv encodings s) as [r Hr].
      rewrite Hr. destruct r as [d|]; [discriminate|].
      intros H. inversion H. right. split; [reflexivity|].
      exists read_csv. split; [reflexivity|].
      intros enc d. apply (proj1 (try_encodings_none _ _ _ _) Hr).
      apply every_encoding_tried.
Qed.

Lemma load_csv_data_state_free w path s s0 :
  fst (load_csv_data w path s) = fst (load_csv_data w path s0).
Proof.
  destruct (writes_log_load_csv_data w path) as (o & rs & H).
  rewrite !H. reflexivity.
Qed.

Section LoadDataFacts.
Context {rt : PyRuntime}.

Lemma load_source_outcome w path tag acc s :
  fst (load_source w path tag acc s) =
  match file w path with
  | Missing => Return acc
  | Present _ =>
      match fst (load_csv_data w path s) with
      | Return df =>
          match split_data_into_chunks df tag with
          | Return chunks => Return (acc ++ chunks)
          | Raise e => Raise e
          end
      | Raise e => Raise e
      end
  end.
Proof.
  unfold load_source, path_exists, bind, lift.
  destruct (file w path); [reflexivity|].
  destruct (load_csv_data w path s) as [[df|e] s1]; [|reflexivity].
  cbn. destruct (split_data_into_chunks df tag); reflexivity.
Qed.

Lemma load_source_only_value_error w path tag acc s e :
  fst (load_source w path tag acc s) = Raise e -> e = ValueError.
Proof.
  rewrite load_source_outcome.
  destruct (file w path) as [|read_csv] eqn:Hf; [discriminate|].
  destruct (fst (load_csv_data w path s)) as [df|e1] eqn:Hl.
  - destruct (split_data_into_chunks_spec df tag) as (es & Hs & _).
    rewrite Hs. discriminate.
  - rewrite load_csv_data_outcome, Hf in Hl.
    destruct (try_encodings_returns path read_csv encodings s) as [r Hr].
    rewrite Hr in Hl. destruct r; [discriminate|].
    intros H. inversion H; subst e1. inversion Hl. reflexivity.
Qed.

Lemma load_source_unreadable w path tag acc s read_csv :
  file w path = Present read_csv -> unreadable read_csv ->
  fst (load_source w path tag acc s) = Raise ValueError.
Proof.
  intros Hf Hbad. rewrite load_source_outcome, load_csv_data_outcome, Hf.
  assert (H : fst (try_encodings path read_csv encodings s) = Return None).
  { apply try_encodings_none. intros e d _. apply Hbad. }
  rewrite H. reflexivity.
Qed.

(** [load_data], one source after the other. *)
Lemma load_data_outcome w s :
  fst (load_data w s) =
  match load_source w VERB_CSV_PATH (py "verb") [] s with
  | (Return verbs, s1) =>
      match fst (load_source w ADJECTIVE_CSV_PATH (py "adjective") verbs s1)
      with
      | Return all_chunks =>
          if length all_chunks =? 0
          then Raise (FileNotFoundError NoCsvFilesFound)
          else Return all_chunks
      | Raise e => Raise e
      end
  | (Raise e, _) => Raise e
  end.
Proof.
  unfold load_data, bind.
  destruct (load_source w VERB_CSV_PATH (py "verb") [] s)
    as [[verbs|e] s1]; [|reflexivity].
  destruct (load_source w ADJECTIVE_CSV_PATH (py "adjective") verbs s1)
    as [[all_chunks|e] s2]; [|reflexivity].
  cbn. destruct (length all_chunks =? 0); reflexivity.
Qed.

Lemma split_sources df tag es :
  split_data_into_chunks df tag = Return es ->
  Forall (fun e => source e = tag) es.
Proof.
  intros Hs. destruct (split_data_into_chunks_spec df tag)
    as (es' & Hs' & Hall & _).
  rewrite Hs in Hs'. inversion Hs'; subst es'.
  eapply Forall_impl; [|exact Hall].
  intros e He. unfold entry_spec in He. destruct (rows (data e)); [easy|].
  apply He.
Qed.

Lemma split_empty_iff df tag es :
  split_data_into_chunks df tag = Return es -> (es = [] <-> len df = 0).
Proof.
  intros Hs. destruct (split_data_into_chunks_spec df tag)
    as (es' & Hs' & _ & Hpos & Hlen).
  rewrite Hs in Hs'. inversion Hs'; subst es'. split.
  - intros ->. destruct (Nat.eq_dec (len df) 0) as [E | E]; [exact E|].
    specialize (Hlen 0 ltac:(lia)). cbn in Hlen. lia.
  - intros H0. destruct es as [|e es]; [reflexivity|].
    specialize (Hpos 0 e eq_refl). lia.
Qed.

Lemma load_source_contributes w path tag acc out s :
  fst (load_source w path tag acc s) = Return out ->
  exists es, out = acc ++ es /\ contributes w path tag es /\
             Forall (fun e => source e = tag) es.
Proof.
  rewrite load_source_outcome.
  destruct (file w path) as [|read_csv] eqn:Hf.
  - intros H. inversion H; subst. exists []. rewrite app_nil_r.
    split; [reflexivity|]. split; [left; auto | constructor].
  - destruct (fst (load_csv_data w path s)) as [df|e] eqn:Hl; [|discriminate].
    destruct (split_data_into_chunks df tag) as [es|e] eqn:Hs; [|discriminate].
    intros H. inversion H; subst. exists es. split; [reflexivity|]. split.
    + right. exists df, s. auto.
    + exact (split_sources df tag es Hs).
Qed.

(** X4: the list [load_data] returns is never empty and is made of what
    the verb file contributes followed by what the adjective file
    contributes: every verb entry comes before every adjective entry,
    and a missing file contributes nothing. *)
Theorem load_data_verbs_first w s chunks s' :
  load_data w s = (Return chunks, s') ->
  chunks <> [] /\
  exists verbs adjectives,
    chunks = verbs ++ adjectives /\
    contributes w VERB_CSV_PATH (py "verb") verbs /\
    contributes w ADJECTIVE_CSV_PATH (py "adjective") adjectives /\
    Forall (fun e => source e = py "verb") verbs /\
    Forall (fun e => source e = py "adjective") adjectives.
Proof.
  intros Hload. apply (f_equal fst) in Hload. cbn [fst] in Hload.
  rewrite load_data_outcome in Hload.
  destruct (load_source w VERB_CSV_PATH (py "verb") [] s)
    as [[verbs|e] s1] eqn:H1; [|discriminate].
  destruct (fst (load_source w ADJECTIVE_CSV_PATH (py "adjective") verbs s1))
    as [all_chunks|e] eqn:H2; [|discriminate].
  destruct (Nat.eqb_spec (length all_chunks) 0) as [E | E]; [discriminate|].
  inversion Hload; subst all_chunks. split.
  - intros ->. apply E. reflexivity.
  - apply (f_equal fst) in H1. cbn [fst] in H1.
    destruct (load_source_contributes _ _ _ _ _ _ H1) as (vs & Hv & Cv & Sv).
    destruct (load_source_contributes _ _ _ _ _ _ H2) as (adj & Ha & Ca & Sa).
    cbn in Hv. subst verbs. exists vs, adj. auto.
Qed.

(** X5: one file that is there and cannot be parsed fails the whole
    load: [load_data] raises [ValueError] whatever the other file
    holds. *)
Theorem load_data_all_or_nothing w s path read_csv :
  file w path = Present read_csv -> unreadable read_csv ->
  fst (load_data w s) = Raise ValueError.
Proof.
  intros Hf Hbad. rewrite load_data_outcome.
  destruct (load_source w VERB_CSV_PATH (py "verb") [] s)
    as [[verbs|e] s1] eqn:H1.
  - destruct path.
    + apply (f_equal fst) in H1. cbn [fst] in H1.
      rewrite (load_source_unreadable _ _ _ _ _ _ Hf Hbad) in H1.
      discriminate.
    + rewrite (load_source_unreadable _ _ _ _ _ _ Hf Hbad). reflexivity.
  - apply (f_equal fst) in H1. cbn [fst] in H1.
    rewrite (load_source_only_value_error _ _ _ _ _ _ H1). reflexivity.
Qed.

(** X6: [load_data] raises in two ways only: [ValueError], and the
    [FileNotFoundError] of the empty source set; the second exactly when
    each configured path is missing or holds a frame without rows.  It
    never raises the error that names a missing path. *)
Theorem load_data_errors w s :
  (forall e, fst (load_data w s) = Raise e ->
             e = ValueError \/ e = FileNotFoundError NoCsvFilesFound) /\
  (fst (load_data w s) = Raise (FileNotFoundError NoCsvFilesFound) <->
   forall path, yields_nothing w path).
Proof.
  split.
  - intros e. rewrite load_data_outcome.
    destruct (load_source w VERB_CSV_PATH (py "verb") [] s)
      as [[verbs|e1] s1] eqn:H1.
    + destruct (fst (load_source w ADJECTIVE_CSV_PATH (py "adjective")
                                 verbs s1)) as [all_chunks|e2] eqn:H2.
      * destruct (length all_chunks =? 0); [|discriminate].
        intros H. inversion H. right. reflexivity.
      * intros H. inversion H; subst e2. left.
        exact (load_source_only_value_error _ _ _ _ _ _ H2).
    + apply (f_equal fst) in H1. cbn [fst] in H1.
      intros H. inversion H; subst e1. left.
      exact (load_source_only_value_error _ _ _ _ _ _ H1).
  - split; [apply load_data_no_files_cause|].
    intros Hnone. rewrite load_data_outcome.
    assert (Hsrc : forall path tag acc s0,
               fst (load_source w path tag acc s0) = Return acc).
    { intros path tag acc s0. rewrite load_source_outcome.
      destruct (Hnone path) as [-> | (df & s1 & Hl & H0)]; [reflexivity|].
      destruct (file w path); [reflexivity|].
      rewrite (load_csv_data_state_free w path s0 s1), Hl.
      destruct (split_data_into_chunks_spec df tag) as (es & Hs & _).
      rewrite Hs. rewrite (proj2 (split_empty_iff df tag es Hs) H0).
      rewrite app_nil_r. reflexivity. }
    pose proof (Hsrc VERB_CSV_PATH (py "verb") [] s) as H1.
    destruct (load_source w VERB_CSV_PATH (py "verb") [] s) as [o s1].
    cbn [fst] in H1. subst o. rewrite Hsrc. reflexivity.
Qed.

Lemma load_data_only_logs_aux w s s0 :
  fst (load_data w s) = fst (load_data w s0) /\
  exists rs, snd (load_data w s) = extend (log_records rs) s.
Proof.
  destruct (writes_log_load_data w) as (o & rs & H). rewrite !H.
  split; [reflexivity | exists rs; reflexivity].
Qed.

(** X7: loading touches nothing but the log: [load_data] leaves the four
    globals as they are, starts no thread, and its outcome does not
    depend on the state of the process. *)
Theorem load_data_only_logs w s s0 :
  fst (load_data w s) = fst (load_data w s0) /\
  _cache_data (snd (load_data w s)) = _cache_data s /\
  _cache_timestamp (snd (load_data w s)) = _cache_timestamp s /\
  _cache_loading (snd (load_data w s)) = _cache_loading s /\
  _initialized (snd (load_data w s)) = _initialized s /\
  exists rs, journal (snd (load_data w s)) = journal s ++ log_records rs.
Proof.
  destruct (writes_log_load_data w) as (o & rs & H). rewrite !H. cbn.
  repeat split. exists rs. reflexivity.
Qed.
End LoadDataFacts.

(** ** Chunker *)

Section MoreChunkerFacts.
Context {rt : PyRuntime}.

(** X8: a frame of [n] rows gives [ceil(n / 4)] entries. *)
Theorem split_data_into_chunks_count df src entries :
  split_data_into_chunks df src = Return entries ->
  length entries = (len df + 3) / 4.
Proof.
  intros Hs. destruct (split_data_into_chunks_spec df src)
    as (es & Hs' & _ & Hpos & Hlen).
  rewrite Hs in Hs'. inversion Hs'; subst es. clear Hs'.
  assert (Hup : len df <= 4 * length entries).
  { destruct (Nat.le_gt_cases (len df) (4 * length entries)) as [H | H];
      [exact H|]. specialize (Hlen _ H). lia. }
  assert (Hlow : length entries = 0 \/ 4 * (length entries - 1) < len df).
  { destruct entries as [|e0 rest]; [left; reflexivity | right].
    destruct (nth_error (e0 :: rest) (length (e0 :: rest) - 1)) as [e|] eqn:E.
    - exact (proj1 (Hpos _ e E)).
    - apply nth_error_None in E. cbn [length] in E. lia. }
  apply Nat.div_unique with (r := len df + 3 - 4 * length entries); lia.
Qed.

(** X9: the [k]-th entry is made from row [4k] of the frame: its title is
    the stripped text of the first cell of that row, which is the text
    "nan" when the cell is missing; it records the tag it was built with
    and the column names of the frame; and its slug is the base slug of
    the title alone when the tag is empty, else followed by a hyphen and
    the tag. *)
Theorem entry_made_from_first_row df src entries k e :
  split_data_into_chunks df src = Return entries ->
  nth_error entries k = Some e ->
  title e = str_strip (py_str (nth 0 (nth (4 * k) (rows df) []) NaN)) /\
  (nth 0 (nth (4 * k) (rows df) []) NaN = NaN -> title e = py "nan") /\
  source e = src /\
  entry_columns e = columns df /\
  columns (data e) = columns df /\
  slug e = match src with
           | [] => base_slug_of (title e)
           | _ :: _ => base_slug_of (title e) ++ hyphen :: src
           end.
Proof.
  intros Hsplit Hk.
  destruct (split_data_into_chunks_spec df src)
    as (es & H & Hall & Hpos & _).
  rewrite Hsplit in H. inversion H; subst es. clear H.
  destruct (Hpos k e Hk) as [Hlt Hrows].
  rewrite Forall_forall in Hall.
  specialize (Hall e (nth_error_In _ _ Hk)).
  unfold entry_spec in Hall. rewrite Hrows in Hall. unfold len in Hlt.
  destruct (skipn (4 * k) (rows df)) as [|row rest] eqn:E.
  - apply (f_equal (@length _)) in E. rewrite length_skipn in E.
    cbn in E. lia.
  - assert (Hrow : nth (4 * k) (rows df) [] = row).
    { rewrite <- (firstn_skipn (4 * k) (rows df)), E.
      rewrite app_nth2; rewrite length_firstn;
        replace (Nat.min (4 * k) (length (rows df))) with (4 * k) by lia.
      - rewrite Nat.sub_diag. reflexivity.
      - lia. }
    cbn [firstn] in Hall.
    destruct Hall as (Ht & _ & Hslug & Hsrc & Hcols & Hdcols).
    rewrite Hrow. repeat split; auto.
    intros Hnan. rewrite Ht, Hnan. reflexivity.
Qed.
End MoreChunkerFacts.

(** ** Cache core *)

Lemma extend_records evs (P : State -> Prop) s :
  (forall ev s0, P s0 -> P (record ev s0)) -> P s -> P (extend evs s).
Proof.
  intros Hrec. revert s. induction evs as [|ev evs IH]; intros s Hs.
  - rewrite extend_nil. exact Hs.
  - replace (extend (ev :: evs) s) with (extend evs (record ev s)).
    + apply IH. apply Hrec. exact Hs.
    + unfold extend, record. cbn. rewrite <- app_assoc. reflexivity.
Qed.

Section MoreCacheFacts.
Context {rt : PyRuntime}.

(** The three ways through [get_all_chunks]. *)
Lemma get_all_chunks_cases w s :
  (exists cached, _cache_data s = Some cached /\
                  (cache_age w s < CACHE_TTL)%Q /\
                  get_all_chunks w s = (Return cached, s)) \/
  (exists cached, _cache_data s = Some cached /\
                  in_stale_window w s /\
                  get_all_chunks w s =
                  (Return cached,
                   if _cache_loading s then s
                   else record ThreadStart (set_cache_loading true s))) \/
  ((_cache_data s = None \/ (CACHE_TTL * 2 <= cache_age w s)%Q) /\
   get_all_chunks w s = _refresh_cache w s).
Proof.
  destruct (_cache_data s) as [cached|] eqn:Hc.
  - destruct (Qlt_le_dec (cache_age w s) CACHE_TTL) as [Hfresh | Hold].
    + left. exists cached. split; [reflexivity|]. split; [exact Hfresh|].
      apply fresh_read; assumption.
    + destruct (Qlt_le_dec (cache_age w s) (CACHE_TTL * 2)) as [Hst | Hex].
      * right. left. exists cached. split; [reflexivity|].
        split; [split; assumption|]. apply stale_read; assumption.
      * right. right. split; [right; exact Hex|].
        apply expired_read. right. exact Hex.
  - right. right. split; [left; reflexivity|].
    apply expired_read. left. exact Hc.
Qed.

(** The two ways through [_refresh_cache], by what the load does. *)
Lemma refresh_cache_cases w s :
  (exists chunks rs,
      fst (load_data w s) = Return chunks /\ chunks <> [] /\
      Forall tagged chunks /\
      _refresh_cache w s =
      (Return chunks,
       record (Log INFO (CacheRefreshed (length chunks)))
              (set_cache chunks (refresh_time w)
                         (extend (log_records rs) s)))) \/
  (exists e rs,
      fst (load_data w s) = Raise e /\
      _refresh_cache w s =
      match _cache_data s with
      | Some cached =>
          (Return cached,
           record (Log WARNING (UsingStaleCache e))
                  (record (Log ERROR (CacheRefreshFailed e))
                          (set_cache_loading false
                             (extend (log_records rs) s))))
      | None =>
          (Raise e,
           record (Log ERROR (CacheRefreshFailed e))
                  (set_cache_loading false (extend (log_records rs) s)))
      end).
Proof.
  destruct (writes_log_load_data w) as (o & rs & Hlog).
  rewrite (refresh_cache_unfold w s o rs Hlog), Hlog.
  destruct o as [chunks | e]; [left | right].
  - exists chunks, rs. split; [reflexivity|].
    pose proof (Hlog s) as Hs.
    split; [|split; [exact (load_data_tagged w s chunks _ Hs) | reflexivity]].
    intros ->. unfold load_data, bind in Hs.
    destruct (load_source w VERB_CSV_PATH (py "verb") [] s) as [[a|?] ?];
      [|discriminate].
    destruct (load_source w ADJECTIVE_CSV_PATH (py "adjective") a s0)
      as [[b|?] ?]; [|discriminate].
    destruct (Nat.eqb_spec (length b) 0) as [E | E]; [discriminate|].
    cbn in Hs. inversion Hs; subst b. apply E. reflexivity.
  - exists e, rs. split; [reflexivity|].
    cbn. destruct (_cache_data s); reflexivity.
Qed.

(** X10: what [get_all_chunks] returns is the snapshot it leaves
    installed; it raises only when there was no snapshot and the load
    failed, and then none is installed.  With a snapshot in place a read
    therefore never fails, whatever the files and the clock. *)
Theorem read_returns_installed_snapshot w s :
  match fst (get_all_chunks w s) with
  | Return chunks => _cache_data (snd (get_all_chunks w s)) = Some chunks
  | Raise e =>
      _cache_data s = None /\
      _cache_data (snd (get_all_chunks w s)) = None /\
      fst (load_data w s) = Raise e
  end /\
  (_cache_data s <> None ->
   exists chunks, fst (get_all_chunks w s) = Return chunks).
Proof.
  destruct (get_all_chunks_cases w s)
    as [(c & Hc & _ & ->) | [(c & Hc & _ & ->) | [_ ->]]].
  - cbn. split; [exact Hc | eauto].
  - cbn. split; [|eauto]. destruct (_cache_loading s); exact Hc.
  - destruct (refresh_cache_cases w s)
      as [(chunks & rs & Hl & _ & _ & ->) | (e & rs & Hl & ->)].
    + cbn. split; [reflexivity | eauto].
    + destruct (_cache_data s) as [cached|] eqn:Hc; cbn.
      * rewrite Hc. split; [reflexivity | eauto].
      * rewrite Hc. split; [auto | congruence].
Qed.

(** X11: a read replaces the snapshot and its timestamp together, and
    only by the chunks of a load that succeeded, stamped with the time of
    that refresh; otherwise both stay as they were.  It never changes
    the initialized flag. *)
Theorem read_replaces_snapshot_on_success w s :
  _initialized (snd (get_all_chunks w s)) = _initialized s /\
  ((_cache_data (snd (get_all_chunks w s)) = _cache_data s /\
    _cache_timestamp (snd (get_all_chunks w s)) = _cache_timestamp s) \/
   (exists chunks,
       fst (load_data w s) = Return chunks /\
       fst (get_all_chunks w s) = Return chunks /\
       _cache_data (snd (get_all_chunks w s)) = Some chunks /\
       _cache_timestamp (snd (get_all_chunks w s)) = refresh_time w /\
       _cache_loading (snd (get_all_chunks w s)) = false)).
Proof.
  destruct (get_all_chunks_cases w s)
    as [(c & Hc & _ & ->) | [(c & Hc & _ & ->) | [_ ->]]].
  - cbn. auto.
  - cbn. destruct (_cache_loading s); cbn; auto.
  - destruct (refresh_cache_cases w s)
      as [(chunks & rs & Hl & _ & _ & ->) | (e & rs & Hl & ->)].
    + cbn. split; [reflexivity|]. right. exists chunks. auto.
    + destruct (_cache_data s) as [cached|] eqn:Hc; cbn; rewrite ?Hc; auto.
Qed.

(** X12: after a refresh whose load succeeded, the loading flag is down
    and every read taken less than [CACHE_TTL] after the stamp of that
    refresh returns the loaded chunks and changes nothing. *)
Theorem read_after_refresh w w' s chunks :
  fst (load_data w s) = Return chunks ->
  (current_time w' - refresh_time w < CACHE_TTL)%Q ->
  _cache_loading (snd (_refresh_cache w s)) = false /\
  get_all_chunks w' (snd (_refresh_cache w s))
  = (Return chunks, snd (_refresh_cache w s)).
Proof.
  intros Hload Hage.
  destruct (refresh_cache_cases w s)
    as [(c & rs & Hl & _ & _ & ->) | (e & rs & Hl & _)];
    [|rewrite Hload in Hl; discriminate].
  rewrite Hload in Hl. inversion Hl; subst c. cbn [snd].
  split; [reflexivity|]. apply fresh_read; [reflexivity | exact Hage].
Qed.

Lemma stale_read_in_flight w s cached :
  _cache_data s = Some cached -> _cache_loading s = true ->
  in_stale_window w s ->
  get_all_chunks w s = (Return cached, s).
Proof.
  intros Hc Hl [Hlo Hhi]. rewrite (stale_read w s cached Hc Hlo Hhi), Hl.
  reflexivity.
Qed.

(** X13: single flight.  However many reads fall in the stale window of
    a snapshot for which no refresh is in flight, together they start
    one thread: the first sets the loading flag and the others find it
    set.  The snapshot and its timestamp stay as they are. *)
Theorem stale_reads_start_one_thread w ws s cached :
  _cache_data s = Some cached ->
  _cache_loading s = false ->
  (forall w0, In w0 (w :: ws) -> in_stale_window w0 s) ->
  after (map Read (w :: ws)) s
  = record ThreadStart (set_cache_loading true s).
Proof.
  intros Hc Hl Hwin. cbn [map after fold_left act].
  destruct (Hwin w (or_introl eq_refl)) as [Hlo Hhi].
  rewrite (stale_read w s cached Hc Hlo Hhi), Hl. cbn [snd].
  set (s1 := record ThreadStart (set_cache_loading true s)).
  assert (Hrest : forall w0, In w0 ws -> in_stale_window w0 s1).
  { intros w0 H0. apply (Hwin w0). right. exact H0. }
  clear Hwin Hlo Hhi. induction ws as [|w1 ws IH]; [reflexivity|].
  cbn [map fold_left act].
  rewrite (stale_read_in_flight w1 s1 cached Hc eq_refl
             (Hrest w1 (or_introl eq_refl))).
  cbn [snd]. apply IH. intros w0 H0. apply Hrest. right. exact H0.
Qed.

(** X14: a background refresh that fails is tried again.  After a stale
    read has started a thread and the load in that thread has raised,
    the loading flag is down and the old snapshot still installed, so
    that the next read in the stale window returns it and starts a new
    thread. *)
Theorem failed_refresh_is_retried w1 wt w2 s cached e :
  _cache_data s = Some cached ->
  _cache_loading s = false ->
  in_stale_window w1 s ->
  fst (load_data wt s) = Raise e ->
  in_stale_window w2 s ->
  _cache_loading (after [Read w1; ThreadRuns wt] s) = false /\
  _cache_data (after [Read w1; ThreadRuns wt] s) = Some cached /\
  fst (get_all_chunks w2 (after [Read w1; ThreadRuns wt] s))
  = Return cached /\
  after [Read w1; ThreadRuns wt; Read w2] s
  = record ThreadStart
           (set_cache_loading true (after [Read w1; ThreadRuns wt] s)).
Proof.
  intros Hc Hl [Hlo1 Hhi1] Hload Hw2.
  cbn [after fold_left act].
  rewrite (stale_read w1 s cached Hc Hlo1 Hhi1), Hl. cbn [snd].
  set (s1 := record ThreadStart (set_cache_loading true s)).
  destruct (refresh_cache_cases wt s1)
    as [(c & rs & Hl1 & _) | (e1 & rs & Hl1 & Href)].
  { rewrite (proj1 (load_data_only_logs_aux wt s1 s)) in Hl1.
    rewrite Hload in Hl1. discriminate. }
  rewrite Href. change (_cache_data s1) with (_cache_data s). rewrite Hc.
  cbn [snd].
  set (s2 := record _ (record _ (set_cache_loading false _))).
  assert (Hc2 : _cache_data s2 = Some cached) by exact Hc.
  assert (Hw2' : in_stale_window w2 s2) by exact Hw2.
  destruct Hw2' as [Hlo2 Hhi2].
  rewrite (stale_read w2 s2 cached Hc2 Hlo2 Hhi2).
  cbn. auto.
Qed.
End MoreCacheFacts.

(** ** Initializer and start-up *)

Section MoreInitializerFacts.
Context {rt : PyRuntime}.

Lemma wait_loop_cases polls s :
  wait_loop polls s = (Return false, s) \/
  (_initialized s = false /\ _cache_loading s = true /\
   _cache_data s <> None /\
   wait_loop polls s = (Return true, set_initialized true s)).
Proof.
  induction polls as [|polls IH]; [left; reflexivity|].
  cbn [wait_loop]. unfold bind, get. cbn.
  destruct (_initialized s) eqn:Hi; cbn; [left; reflexivity|].
  destruct (_cache_loading s) eqn:Hl; cbn; [|exact IH].
  destruct (_cache_data s) as [cached|] eqn:Hc; cbn; [|exact IH].
  right. repeat split; congruence.
Qed.

Lemma ensure_initialized_cases w polls s :
  (_initialized s = true /\ ensure_initialized w polls s = (Return tt, s)) \/
  (_initialized s = false /\ _cache_loading s = true /\
   _cache_data s <> None /\
   ensure_initialized w polls s = (Return tt, set_initialized true s)) \/
  (_initialized s = false /\ ensure_initialized w polls s = preload w s).
Proof.
  assert (H : ensure_initialized w polls s =
              if _initialized s then (Return tt, s)
              else match wait_loop polls s with
                   | (Return true, s') => (Return tt, s')
                   | (Return false, s') =>
                       if _initialized s' then (Return tt, s')
                       else preload w s'
                   | (Raise e, s') => (Raise e, s')
                   end).
  { unfold ensure_initialized, preload, bind, get.
    destruct (_initialized s); [reflexivity|].
    destruct (wait_loop polls s) as [[[|]|e] s']; try reflexivity.
    cbn. destruct (_initialized s'); reflexivity. }
  rewrite H. destruct (_initialized s) eqn:Hi; [left; auto | right].
  destruct (wait_loop_cases polls s) as [Hw | (_ & Hl & Hc & Hw)]; rewrite Hw.
  - right. rewrite Hi. auto.
  - left. auto.
Qed.

Lemma find_files_cases w s :
  exists rs,
    find_files w s
    = (Return (filter (path_exists w) [VERB_CSV_PATH; ADJECTIVE_CSV_PATH]),
       extend (log_records rs) s).
Proof.
  unfold find_files, bind. cbn [filter].
  destruct (path_exists w VERB_CSV_PATH);
    destruct (path_exists w ADJECTIVE_CSV_PATH); cbn.
  - exists []. cbn. rewrite extend_nil. reflexivity.
  - exists [(WARNING, NotFoundAt ADJECTIVE_CSV_PATH)]. reflexivity.
  - exists [(WARNING, NotFoundAt VERB_CSV_PATH)]. reflexivity.
  - exists [(WARNING, NotFoundAt VERB_CSV_PATH);
            (WARNING, NotFoundAt ADJECTIVE_CSV_PATH)].
    unfold extend, record. cbn. rewrite <- app_assoc. reflexivity.
Qed.

(** The two ways through the preload: no configured path exists, or the
    cache is read. *)
Lemma preload_cases w s :
  exists rs,
    ((forall path, path_exists w path = false) /\
     preload w s =
     (Raise (FileNotFoundError NoCsvFilesFound),
      record (Log ERROR (FailedToPreload (FileNotFoundError NoCsvFilesFound)))
             (record (Log ERROR NoCsvFiles) (extend (log_records rs) s)))) \/
    ((exists path, path_exists w path = true) /\
     preload w s =
     match get_all_chunks w (extend (log_records rs) s) with
     | (Return _, s2) => (Return tt, set_initialized true s2)
     | (Raise e, s2) => (Raise e, record (Log ERROR (FailedToPreload e)) s2)
     end).
Proof.
  destruct (find_files_cases w s) as [rs Hf]. exists rs.
  assert (H : preload w s =
              match find_files w s with
              | (Return found_files, s1) =>
                  if length found_files =? 0 then
                    (Raise (FileNotFoundError NoCsvFilesFound),
                     record (Log ERROR (FailedToPreload
                                          (FileNotFoundError NoCsvFilesFound)))
                            (record (Log ERROR NoCsvFiles) s1))
                  else
                    match get_all_chunks w s1 with
                    | (Return _, s2) => (Return tt, set_initialized true s2)
                    | (Raise e, s2) =>
                        (Raise e, record (Log ERROR (FailedToPreload e)) s2)
                    end
              | (Raise e, s1) =>
                  (Raise e, record (Log ERROR (FailedToPreload e)) s1)
              end).
  { unfold preload, try_except, bind.
    destruct (find_files w s) as [[found_files|e] s1]; [|reflexivity].
    destruct (length found_files =? 0); cbn -[get_all_chunks];
      [reflexivity|].
    destruct (get_all_chunks w s1) as [[c|e] s2]; reflexivity. }
  rewrite H, Hf. cbn [filter].
  destruct (path_exists w VERB_CSV_PATH) eqn:Hv;
    destruct (path_exists w ADJECTIVE_CSV_PATH) eqn:Ha; cbn [length Nat.eqb].
  4:{ left. split; [intros []; assumption | reflexivity]. }
  all: right; split; [eauto | reflexivity].
Qed.

Lemma get_all_chunks_keeps_initialized w s :
  _initialized (snd (get_all_chunks w s)) = _initialized s.
Proof.
  destruct (get_all_chunks_cases w s)
    as [(c & _ & _ & ->) | [(c & _ & _ & ->) | [_ ->]]].
  - reflexivity.
  - cbn. destruct (_cache_loading s); reflexivity.
  - destruct (refresh_cache_cases w s)
      as [(chunks & rs & _ & _ & _ & ->) | (e & rs & _ & ->)];
      [reflexivity|]. destruct (_cache_data s); reflexivity.
Qed.

Lemma get_all_chunks_installs w s chunks :
  fst (get_all_chunks w s) = Return chunks ->
  _cache_data (snd (get_all_chunks w s)) = Some chunks.
Proof.
  destruct (get_all_chunks_cases w s)
    as [(c & Hc & _ & ->) | [(c & Hc & _ & ->) | [_ ->]]].
  - cbn. intros H. inversion H; subst. exact Hc.
  - cbn. intros H. inversion H; subst. destruct (_cache_loading s); exact Hc.
  - destruct (refresh_cache_cases w s)
      as [(c & rs & _ & _ & _ & ->) | (e & rs & _ & ->)].
    + cbn. intros H. inversion H; subst. reflexivity.
    + destruct (_cache_data s) as [cached|] eqn:Hc; cbn; [|discriminate].
      intros H. inversion H; subst. exact Hc.
Qed.

Lemma get_all_chunks_warm w s :
  _cache_data s <> None ->
  exists chunks, fst (get_all_chunks w s) = Return chunks.
Proof.
  intros Hd. destruct (get_all_chunks_cases w s)
    as [(c & Hc & _ & ->) | [(c & Hc & _ & ->) | [_ ->]]];
    [cbn; eauto | cbn; eauto |].
  destruct (refresh_cache_cases w s)
    as [(c & rs & _ & _ & _ & ->) | (e & rs & _ & ->)]; [cbn; eauto|].
  destruct (_cache_data s); [cbn; eauto | congruence].
Qed.

Lemma ensure_initialized_post w polls s :
  match fst (ensure_initialized w polls s) with
  | Return _ =>
      _initialized (snd (ensure_initialized w polls s)) = true /\
      _cache_data (snd (ensure_initialized w polls s)) <> None \/
      _initialized s = true /\ snd (ensure_initialized w polls s) = s
  | Raise _ =>
      _initialized s = false /\
      _initialized (snd (ensure_initialized w polls s)) = false
  end.
Proof.
  destruct (ensure_initialized_cases w polls s)
    as [[Hi ->] | [(Hi & Hl & Hc & ->) | [Hi ->]]].
  - cbn. right. auto.
  - cbn. left. auto.
  - destruct (preload_cases w s) as [rs [[_ ->] | [_ ->]]].
    + cbn. auto.
    + pose proof (get_all_chunks_keeps_initialized w
                    (extend (log_records rs) s)) as Hk.
      pose proof (get_all_chunks_installs w (extend (log_records rs) s))
        as Hinst.
      destruct (get_all_chunks w (extend (log_records rs) s))
        as [[c|e] s2]; cbn in *.
      * left. split; [reflexivity|]. rewrite (Hinst c eq_refl). discriminate.
      * split; [exact Hi|]. rewrite Hk. exact Hi.
Qed.

(** X15: [ensure_initialized] returns normally exactly when it leaves the
    process initialized, and when it raises the flag was and stays
    false.  Once it has returned normally, every further call, whatever
    the files, returns at once and changes nothing. *)
Theorem ensure_initialized_settles w polls s :
  match fst (ensure_initialized w polls s) with
  | Return _ => _initialized (snd (ensure_initialized w polls s)) = true
  | Raise _ =>
      _initialized s = false /\
      _initialized (snd (ensure_initialized w polls s)) = false
  end /\
  (forall w' polls' r,
      fst (ensure_initialized w polls s) = Return r ->
      ensure_initialized w' polls' (snd (ensure_initialized w polls s))
      = (Return tt, snd (ensure_initialized w polls s))).
Proof.
  pose proof (ensure_initialized_post w polls s) as Hpost.
  destruct (fst (ensure_initialized w polls s)) as [r|e] eqn:E.
  - assert (Hi : _initialized (snd (ensure_initialized w polls s)) = true).
    { destruct Hpost as [[Hi _] | [Hi Hs]]; [exact Hi | rewrite Hs; exact Hi]. }
    split; [exact Hi|]. intros w' polls' r' _.
    destruct (ensure_initialized_cases w' polls'
                (snd (ensure_initialized w polls s)))
      as [[_ H] | [(Hn & _) | [Hn _]]]; [exact H | congruence | congruence].
  - split; [exact Hpost | discriminate].
Qed.

(** The preload of a process without snapshot, when the load succeeds. *)
Lemma preload_loads w s chunks :
  _cache_data s = None ->
  fst (load_data w s) = Return chunks ->
  fst (preload w s) = Return tt /\
  _initialized (snd (preload w s)) = true /\
  _cache_data (snd (preload w s)) = Some chunks /\
  _cache_timestamp (snd (preload w s)) = refresh_time w /\
  _cache_loading (snd (preload w s)) = false.
Proof.
  intros Hc Hload.
  destruct (preload_cases w s) as [rs [[Hnone _] | [_ ->]]].
  - exfalso.
    assert (Hm : forall p, file w p = Missing).
    { intros p. specialize (Hnone p). unfold path_exists in Hnone.
      destruct (file w p); [reflexivity | discriminate]. }
    rewrite (load_data_all_missing w s (Hm _) (Hm _)) in Hload.
    discriminate.
  - set (s1 := extend (log_records rs) s).
    rewrite (expired_read w s1 (or_introl Hc)).
    destruct (refresh_cache_cases w s1)
      as [(c & rs' & Hl & _ & _ & ->) | (e & rs' & Hl & _)].
    + rewrite (proj1 (load_data_only_logs_aux w s1 s)), Hload in Hl.
      inversion Hl; subst c. cbn. auto.
    + rewrite (proj1 (load_data_only_logs_aux w s1 s)), Hload in Hl.
      discriminate.
Qed.

Lemma cold_start_aux w polls s chunks :
  _initialized s = false ->
  _cache_data s = None ->
  fst (load_data w s) = Return chunks ->
  fst (ensure_initialized w polls s) = Return tt /\
  _initialized (snd (ensure_initialized w polls s)) = true /\
  _cache_data (snd (ensure_initialized w polls s)) = Some chunks /\
  _cache_timestamp (snd (ensure_initialized w polls s)) = refresh_time w /\
  _cache_loading (snd (ensure_initialized w polls s)) = false.
Proof.
  intros Hi Hc Hload.
  destruct (ensure_initialized_cases w polls s)
    as [[Hi' _] | [(_ & _ & Hc' & _) | [_ ->]]]; [congruence | congruence |].
  exact (preload_loads w s chunks Hc Hload).
Qed.

Lemma read_raises_cold w s e :
  fst (get_all_chunks w s) = Raise e ->
  _cache_data (snd (get_all_chunks w s)) = None /\
  _cache_loading (snd (get_all_chunks w s)) = false.
Proof.
  destruct (get_all_chunks_cases w s)
    as [(c & _ & _ & ->) | [(c & _ & _ & ->) | [_ ->]]];
    [discriminate | discriminate |].
  destruct (refresh_cache_cases w s)
    as [(c & rs & _ & _ & _ & ->) | (e1 & rs & _ & ->)]; [discriminate|].
  destruct (_cache_data s) eqn:Hc; [discriminate|].
  cbn. rewrite Hc. auto.
Qed.

(** X16: a cold start with loadable files.  From a process that is not
    initialized and has no snapshot, whenever the load succeeds
    [ensure_initialized] returns normally, however long it waited, with
    the loaded chunks installed, stamped with the time of the refresh,
    no refresh in flight, and the process marked initialized. *)
Theorem cold_start_loads w polls s chunks :
  _initialized s = false ->
  _cache_data s = None ->
  fst (load_data w s) = Return chunks ->
  fst (ensure_initialized w polls s) = Return tt /\
  _initialized (snd (ensure_initialized w polls s)) = true /\
  _cache_data (snd (ensure_initialized w polls s)) = Some chunks /\
  _cache_timestamp (snd (ensure_initialized w polls s)) = refresh_time w /\
  _cache_loading (snd (ensure_initialized w polls s)) = false.
Proof.
  intros Hi Hc Hload.
  destruct (ensure_initialized_cases w polls s)
    as [[Hi' _] | [(_ & _ & Hc' & _) | [_ ->]]]; [congruence | congruence |].
  exact (preload_loads w s chunks Hc Hload).
Qed.

Lemma startup_state w polls s :
  startup w polls s =
  (Return tt,
   if _initialized s then s else snd (ensure_initialized w polls s)).
Proof.
  unfold startup, bind, get, try_except. cbn -[ensure_initialized].
  destruct (_initialized s); cbn -[ensure_initialized]; [reflexivity|].
  destruct (ensure_initialized w polls s) as [[[]|e] s1]; reflexivity.
Qed.

Lemma ensure_initialized_raises_cold w polls s e :
  _cache_data s = None ->
  fst (ensure_initialized w polls s) = Raise e ->
  _initialized (snd (ensure_initialized w polls s)) = false /\
  _cache_data (snd (ensure_initialized w polls s)) = None.
Proof.
  intros Hc.
  destruct (ensure_initialized_cases w polls s)
    as [[Hi ->] | [(Hi & Hl & Hd & ->) | [Hi ->]]];
    [discriminate | discriminate |].
  destruct (preload_cases w s) as [rs [[_ ->] | [_ ->]]].
  - cbn. auto.
  - pose proof (get_all_chunks_keeps_initialized w
                  (extend (log_records rs) s)) as Hk.
    pose proof (read_raises_cold w (extend (log_records rs) s)) as Hcold.
    destruct (get_all_chunks w (extend (log_records rs) s))
      as [[c|e1] s2]; cbn in *; [discriminate|].
    intros _. split; [congruence | exact (proj1 (Hcold e1 eq_refl))].
Qed.

(** X17: importing the module never fails, and a failed preload can be
    made up for: whatever the files were at import, the first later call
    of [ensure_initialized] made when the load succeeds returns normally
    and leaves the process initialized over a snapshot. *)
Theorem startup_never_raises w polls s :
  fst (startup w polls s) = Return tt /\
  (forall w' polls' chunks,
      fst (load_data w' initial_state) = Return chunks ->
      fst (ensure_initialized w' polls'
             (snd (startup w polls initial_state))) = Return tt /\
      _initialized (snd (ensure_initialized w' polls'
                           (snd (startup w polls initial_state)))) = true /\
      _cache_data (snd (ensure_initialized w' polls'
                          (snd (startup w polls initial_state)))) <> None).
Proof.
  rewrite !startup_state. split; [reflexivity|].
  intros w' polls' chunks Hload. cbn [snd].
  change (_initialized initial_state) with false. cbv iota.
  set (s1 := snd (ensure_initialized w polls initial_state)).
  pose proof (ensure_initialized_post w polls initial_state) as Hpost.
  pose proof (ensure_initialized_raises_cold w polls initial_state) as Hcold.
  fold s1 in Hpost, Hcold.
  destruct (fst (ensure_initialized w polls initial_state)) as [[]|e].
  - destruct Hpost as [[Hi Hd] | [Hi _]]; [|discriminate].
    destruct (ensure_initialized_cases w' polls' s1)
      as [[_ ->] | [(Hn & _) | [Hn _]]]; [|congruence | congruence].
    cbn. auto.
  - destruct (Hcold e eq_refl eq_refl) as [Hi Hd].
    destruct (cold_start_aux w' polls' s1 chunks Hi Hd) as (H1 & H2 & H3 & _).
    + rewrite (proj1 (load_data_only_logs_aux w' s1 initial_state)).
      exact Hload.
    + rewrite H3. repeat split; auto. discriminate.
Qed.
End MoreInitializerFacts.

(** ** Handlers *)

Section HandlerFacts.
Context {rt : PyRuntime}.


(** [index], one call after the other. *)
Lemma index_unfold w_init w polls q s :
  index w_init w polls q s =
  match ensure_initialized w_init polls s with
  | (Raise _, s1) => (Return ErrorPage, s1)
  | (Return _, s1) =>
      match str_strip q with
      | [] => (Return (IndexPage [] []), s1)
      | c :: query =>
          match get_all_chunks w s1 with
          | (Return chunks, s2) =>
              (Return (IndexPage (c :: query)
                         (search_loop (str_lower (c :: query)) chunks [])),
               s2)
          | (Raise _, s2) => (Return (IndexPage (c :: query) []), s2)
          end
      end
  end.
Proof.
  unfold index, try_except, bind.
  destruct (ensure_initialized w_init polls s) as [[[]|e] s1]; [|reflexivity].
  destruct (str_strip q) as [|c query]; [reflexivity|].
  destruct (get_all_chunks w s1) as [[chunks|e] s2]; reflexivity.
Qed.

Lemma health_unfold w_init w polls s :
  health GET w_init w polls s =
  match ensure_initialized w_init polls s with
  | (Raise _, s1) => (Return Unavailable, s1)
  | (Return _, s1) =>
      match _cache_data s1 with
      | Some _ =>
          (Return (CacheAge (py_int (current_time w - _cache_timestamp s1))),
           s1)
      | None => (Return CacheNotReady, s1)
      end
  end.
Proof.
  unfold health, try_except, bind, get.
  destruct (ensure_initialized w_init polls s) as [[[]|e] s1]; [|reflexivity].
  destruct (_cache_data s1); reflexivity.
Qed.

Lemma page_detail_get_unfold w_init w polls slug_wanted s :
  page_detail GET w_init w polls slug_wanted s =
  match ensure_initialized w_init polls s with
  | (Raise _, s1) => (Return DetailError, s1)
  | (Return _, s1) =>
      match get_all_chunks w s1 with
      | (Return chunks, s2) =>
          (Return match find_chunk slug_wanted chunks with
                  | None => NotFoundPage slug_wanted
                  | Some chunk =>
                      DetailPage (title chunk) (display_frame (data chunk))
                  end, s2)
      | (Raise _, s2) => (Return DetailError, s2)
      end
  end.
Proof.
  unfold page_detail, try_except, bind.
  destruct (ensure_initialized w_init polls s) as [[[]|e] s1]; [|reflexivity].
  destruct (get_all_chunks w s1) as [[chunks|e] s2]; [|reflexivity].
  destruct (find_chunk slug_wanted chunks); reflexivity.
Qed.

Lemma page_detail_head_unfold w_init w polls slug_wanted s :
  page_detail HEAD w_init w polls slug_wanted s =
  match _cache_data s with
  | None => (Return (EmptyReply 200), s)
  | Some _ =>
      match get_all_chunks w s with
      | (Return chunks, s2) =>
          (Return (EmptyReply match find_chunk slug_wanted chunks with
                              | None => 404
                              | Some _ => 200
                              end), s2)
      | (Raise _, s2) => (Return (EmptyReply 200), s2)
      end
  end.
Proof.
  unfold page_detail, try_except, bind at 1, get.
  destruct (_cache_data s); [|reflexivity]. unfold bind.
  destruct (get_all_chunks w s) as [[chunks|e] s2]; [|reflexivity].
  destruct (find_chunk slug_wanted chunks); reflexivity.
Qed.

(** What a handler leaves behind is the state after its call of
    [ensure_initialized], or after a read that follows it, or the state
    it found. *)
Lemma act_state a s :
  exists w0 polls0 w1,
    let s1 := snd (ensure_initialized w0 polls0 s) in
    act a s = s \/ act a s = s1 \/
    act a s = snd (get_all_chunks w1 s1) \/
    act a s = snd (get_all_chunks w1 s) \/
    act a s = snd (_refresh_cache w1 s).
Proof.
  destruct a as [w polls | w | w | w_init w polls q
                 | [|] w_init w polls | [|] w_init w polls slug_wanted];
    cbn [act].
  - exists w, polls, w. rewrite startup_state. cbn [snd].
    destruct (_initialized s); auto.
  - exists w, 0, w. auto.
  - exists w, 0, w. auto 10.
  - exists w_init, polls, w. rewrite index_unfold.
    destruct (ensure_initialized w_init polls s) as [[[]|e] s1]; cbn [snd];
      [|auto].
    destruct (str_strip q); [auto|].
    destruct (get_all_chunks w s1) as [[chunks|e] s2]; cbn [snd]; auto.
  - exists w_init, polls, w. rewrite health_unfold.
    destruct (ensure_initialized w_init polls s) as [[[]|e] s1]; cbn [snd];
      [|auto].
    destruct (_cache_data s1); auto.
  - exists w_init, polls, w. auto.
  - exists w_init, polls, w. rewrite page_detail_get_unfold.
    destruct (ensure_initialized w_init polls s) as [[[]|e] s1]; cbn [snd];
      [|auto].
    destruct (get_all_chunks w s1) as [[chunks|e] s2]; cbn [snd]; auto.
  - exists w_init, polls, w. rewrite page_detail_head_unfold.
    destruct (_cache_data s); [|auto].
    destruct (get_all_chunks w s) as [[chunks|e] s2]; cbn [snd]; auto 10.
Qed.

Section Preservation.
Variable P : State -> Prop.
Hypothesis P_record : forall ev s, P s -> P (record ev s).
Hypothesis P_read : forall w s, P s -> P (snd (get_all_chunks w s)).
Hypothesis P_refresh : forall w s, P s -> P (snd (_refresh_cache w s)).
Hypothesis P_initialized :
  forall s, P s -> _cache_data s <> None -> P (set_initialized true s).

Lemma ensure_initialized_preserves w polls s :
  P s -> P (snd (ensure_initialized w polls s)).
Proof.
  intros Hs.
  destruct (ensure_initialized_cases w polls s)
    as [[Hi ->] | [(Hi & Hl & Hc & ->) | [Hi ->]]].
  - exact Hs.
  - cbn. apply P_initialized; assumption.
  - destruct (preload_cases w s) as [rs [[_ ->] | [_ ->]]].
    + cbn. apply P_record, P_record, extend_records; assumption.
    + assert (H1 : P (extend (log_records rs) s))
        by (apply extend_records; assumption).
      pose proof (P_read w _ H1) as H2.
      pose proof (get_all_chunks_installs w (extend (log_records rs) s))
        as Hinst.
      destruct (get_all_chunks w (extend (log_records rs) s))
        as [[c|e] s2]; cbn in *.
      * apply P_initialized; [exact H2|]. rewrite (Hinst c eq_refl).
        discriminate.
      * apply P_record. exact H2.
Qed.

Lemma act_preserves a s : P s -> P (act a s).
Proof.
  intros Hs. destruct (act_state a s) as (w0 & polls0 & w1 & H).
  cbv zeta in H.
  destruct H as [-> | [-> | [-> | [-> | ->]]]]; auto.
  - apply ensure_initialized_preserves. exact Hs.
  - apply P_read, ensure_initialized_preserves. exact Hs.
Qed.

Lemma after_preserves history s : P s -> P (after history s).
Proof.
  revert s. induction history as [|a history IH]; intros s Hs; [exact Hs|].
  cbn [after fold_left]. apply IH. apply act_preserves. exact Hs.
Qed.
End Preservation.

(** The invariant only looks at the three globals of the cache and at
    the initialized flag. *)
Lemma state_ok_same s s' :
  _cache_data s' = _cache_data s ->
  (_initialized s' = true -> _initialized s = true \/ _cache_data s <> None) ->
  (_cache_loading s' = true ->
   _cache_loading s = true \/ _cache_data s <> None) ->
  state_ok s -> state_ok s'.
Proof.
  unfold state_ok. intros Hd Hi Hl (Hsnap & Hinit & Hload).
  rewrite Hd. split; [exact Hsnap|]. split.
  - intros H. destruct (Hi H) as [H' | H']; auto.
  - intros H. destruct (Hl H) as [H' | H']; auto.
Qed.

Lemma state_ok_installed chunks now s :
  chunks <> [] -> Forall tagged chunks ->
  state_ok (set_cache chunks now s).
Proof.
  intros Hne Htag. unfold state_ok. cbn. split; [|split].
  - intros c H. inversion H; subst. auto.
  - discriminate.
  - discriminate.
Qed.

Lemma state_ok_refresh w s : state_ok s -> state_ok (snd (_refresh_cache w s)).
Proof.
  intros Hok.
  destruct (refresh_cache_cases w s)
    as [(chunks & rs & _ & Hne & Htag & ->) | (e & rs & _ & ->)].
  - cbn [snd]. eapply state_ok_same;
      [| | |exact (state_ok_installed chunks (refresh_time w)
                     (extend (log_records rs) s) Hne Htag)];
      cbn; auto; discriminate.
  - destruct (_cache_data s) eqn:Hc; cbn [snd];
      (eapply state_ok_same; [| | |exact Hok]); cbn; auto; discriminate.
Qed.

Lemma state_ok_read w s : state_ok s -> state_ok (snd (get_all_chunks w s)).
Proof.
  intros Hok.
  destruct (get_all_chunks_cases w s)
    as [(c & Hc & _ & ->) | [(c & Hc & _ & ->) | [_ ->]]].
  - exact Hok.
  - cbn [snd]. destruct (_cache_loading s); [exact Hok|].
    (eapply state_ok_same; [| | |exact Hok]); cbn; auto.
    intros _. right. congruence.
  - apply state_ok_refresh. exact Hok.
Qed.

(** X18: whatever handlers ran and whatever threads finished since the
    import, in whatever order and with whatever files and clock, an
    installed snapshot is never empty and all its entries carry their
    source tag and suffixed slug, a process marked initialized has a
    snapshot, and a refresh is only ever in flight over a snapshot. *)
Theorem running_process_is_ok history :
  state_ok (after history initial_state).
Proof.
  apply after_preserves.
  - intros ev s H. exact H.
  - apply state_ok_read.
  - apply state_ok_refresh.
  - intros s Hok Hc. (eapply state_ok_same; [| | |exact Hok]); cbn; auto.
  - unfold state_ok. cbn. split; [|split]; discriminate.
Qed.

(** X19: a snapshot, once installed, is never lost: after any history of
    handlers and threads there still is one, and every read returns
    instead of raising, even if the files are gone. *)
Theorem snapshot_never_lost history s :
  _cache_data s <> None ->
  _cache_data (after history s) <> None /\
  forall w, exists chunks,
      fst (get_all_chunks w (after history s)) = Return chunks.
Proof.
  intros Hc.
  assert (H : _cache_data (after history s) <> None).
  { apply (after_preserves (fun s0 => _cache_data s0 <> None)); auto.
    - intros w s0 H0.
      destruct (get_all_chunks_warm w s0 H0) as [chunks Hr].
      rewrite (get_all_chunks_installs w s0 chunks Hr). discriminate.
    - intros w s0 H0.
      destruct (refresh_cache_cases w s0)
        as [(chunks & rs & _ & _ & _ & ->) | (e & rs & _ & ->)];
        [cbn; discriminate|].
      destruct (_cache_data s0) eqn:E; [cbn; congruence | congruence]. }
  split; [exact H|]. intros w. apply get_all_chunks_warm. exact H.
Qed.
Lemma ensure_initialized_warm w polls s r :
  (_initialized s = true -> _cache_data s <> None) ->
  fst (ensure_initialized w polls s) = Return r ->
  _cache_data (snd (ensure_initialized w polls s)) <> None.
Proof.
  intros Hwarm Hr. pose proof (ensure_initialized_post w polls s) as Hpost.
  rewrite Hr in Hpost. destruct Hpost as [[_ Hd] | [Hi Hs]]; [exact Hd|].
  rewrite Hs. apply Hwarm. exact Hi.
Qed.


(** X21: the health check answers 503 exactly when [ensure_initialized]
    raises, and never raises another exception.  In a process whose
    initialized flag is not set without a snapshot it otherwise reports
    the age of the installed snapshot in whole seconds; the answer
    "cache not ready" is never given.  A [HEAD] request is answered
    without touching the state. *)
Theorem health_reply w_init w polls s :
  (_initialized s = true -> _cache_data s <> None) ->
  health HEAD w_init w polls s = (Return HealthHead, s) /\
  match fst (ensure_initialized w_init polls s) with
  | Raise _ => fst (health GET w_init w polls s) = Return Unavailable
  | Return _ =>
      fst (health GET w_init w polls s)
      = Return (CacheAge
                  (py_int (current_time w
                           - _cache_timestamp
                               (snd (ensure_initialized w_init polls s)))))
  end /\
  snd (health GET w_init w polls s)
  = snd (ensure_initialized w_init polls s).
Proof.
  intros Hwarm. split; [reflexivity|]. rewrite health_unfold.
  pose proof (ensure_initialized_warm w_init polls s) as Hd.
  destruct (ensure_initialized w_init polls s) as [[r|e] s1];
    cbn [fst snd] in *; [|split; reflexivity].
  specialize (Hd r Hwarm eq_refl).
  destruct (_cache_data s1); [split; reflexivity | congruence].
Qed.


End HandlerFacts.

(** ** Lookup by slug *)

(** X24: the lookup of a slug returns the first entry of the snapshot
    that has it, and nothing exactly when no entry has it. *)
Theorem find_chunk_first_match slug_wanted chunks :
  (find_chunk slug_wanted chunks = None <->
   forall e, In e chunks -> slug e <> slug_wanted) /\
  (forall e, find_chunk slug_wanted chunks = Some e <->
             exists pre post,
               chunks = pre ++ e :: post /\ slug e = slug_wanted /\
               forall x, In x pre -> slug x <> slug_wanted).
Proof.
  induction chunks as [|c chunks [IHn IHs]]; cbn [find_chunk].
  - split.
    + split; [intros _ e [] | reflexivity].
    + intros e. split; [discriminate|].
      intros (pre & post & H & _). destruct pre; discriminate.
  - destruct (list_eqb (slug c) slug_wanted) eqn:E.
    + apply list_eqb_eq in E. split.
      * split; [discriminate|]. intros H. exfalso.
        apply (H c); [left; reflexivity | exact E].
      * intros e. split.
        -- intros H. injection H as <-. exists [], chunks.
           split; [reflexivity|]. split; [exact E | intros x []].
        -- intros (pre & post & H & He & Hpre).
           destruct pre as [|x pre]; cbn in H; injection H as Hx Hrest.
           ++ rewrite Hx. reflexivity.
           ++ exfalso. apply (Hpre x); [left; reflexivity|].
              rewrite <- Hx. exact E.
    + assert (Hne : slug c <> slug_wanted).
      { intros H. apply list_eqb_eq in H. congruence. }
      split.
      * rewrite IHn. split.
        -- intros H e [<- | He]; [exact Hne | apply H; exact He].
        -- intros H e He. apply H. right. exact He.
      * intros e. rewrite IHs. split.
        -- intros (pre & post & -> & He & Hpre).
           exists (c :: pre), post. split; [reflexivity|]. split; [exact He|].
           intros x [<- | Hx]; [exact Hne | apply Hpre; exact Hx].
        -- intros (pre & post & H & He & Hpre).
           destruct pre as [|x pre]; cbn in H; injection H as Hx Hrest.
           ++ exfalso. apply Hne. rewrite Hx. exact He.
           ++ exists pre, post. split; [exact Hrest|]. split; [exact He|].
              intros y Hy. apply Hpre. right. exact Hy.
Qed.

(** X25: when the slugs of a snapshot are pairwise distinct, every entry
    of it is found again under its own slug. *)
Theorem find_chunk_round_trip chunks e :
  NoDup (map slug chunks) ->
  In e chunks ->
  find_chunk (slug e) chunks = Some e.
Proof.
  intros Hnd Hin. induction chunks as [|c chunks IH]; [destruct Hin|].
  cbn [find_chunk]. cbn [map] in Hnd. inversion Hnd as [|x l Hnot Hrest]; subst.
  destruct Hin as [-> | Hin].
  - rewrite (proj2 (list_eqb_eq (slug e) (slug e)) eq_refl). reflexivity.
  - destruct (list_eqb (slug c) (slug e)) eqn:E.
    + apply list_eqb_eq in E. exfalso. apply Hnot. rewrite E.
      apply in_map. exact Hin.
    + apply IH; assumption.
Qed.

(** ** Detail table *)

Lemma replace_one_char c s :
  replace_from [c] [space] 0 s
  = map (fun x => if (c =? x)%N then space else x) s.
Proof.
  induction s as [|x s IH]; [reflexivity|].
  cbn [replace_from prefix_of map length Nat.sub app].
  rewrite andb_true_r. destruct (c =? x)%N; cbn [app]; rewrite IH; reflexivity.
Qed.

Lemma replace_absent c d s :
  ~ In c s -> replace_from [c; d] [space] 0 s = s.
Proof.
  induction s as [|x s IH]; [reflexivity|]. intros Hnot.
  cbn [replace_from prefix_of].
  destruct (N.eqb_spec c x) as [-> | Hne].
  - exfalso. apply Hnot. left. reflexivity.
  - cbn [andb]. rewrite IH; [reflexivity|].
    intros H. apply Hnot. right. exact H.
Qed.

Section TableFacts.
Context {rt : PyRuntime}.

Lemma space_is_space : is_space space = true.
Proof. reflexivity. Qed.

Lemma collapse_whitespace_chars in_run s :
  Forall (fun c => c = space \/ is_space c = false)
         (collapse_whitespace in_run s).
Proof.
  revert in_run. induction s as [|c s IH]; intros in_run; cbn; [constructor|].
  destruct (is_space c) eqn:E.
  - destruct in_run; [apply IH|]. constructor; [left; reflexivity | apply IH].
  - constructor; [right; exact E | apply IH].
Qed.

Lemma collapse_whitespace_runs in_run s :
  no_adjacent space (collapse_whitespace in_run s) /\
  (in_run = true ->
   forall c r, collapse_whitespace in_run s = c :: r -> c <> space).
Proof.
  revert in_run. induction s as [|c s IH]; intros in_run; cbn.
  - split; [exact I | discriminate].
  - destruct (is_space c) eqn:E.
    + destruct in_run.
      * apply IH.
      * destruct (IH true) as [Hna Hhd]. split; [|discriminate].
        cbn [no_adjacent]. split; [|exact Hna].
        destruct (collapse_whitespace true s) as [|y r] eqn:Ey; [exact I|].
        intros [_ Hy]. exact (Hhd eq_refl y r eq_refl Hy).
    + assert (Hc : c <> space).
      { intros ->. rewrite space_is_space in E. discriminate. }
      destruct (IH false) as [Hna _]. split.
      * cbn [no_adjacent]. split; [|exact Hna].
        destruct (collapse_whitespace false s); [exact I|].
        intros [Hx _]. exact (Hc Hx).
      * intros _ x r H. inversion H; subst. exact Hc.
Qed.

(** Replacing whitespace by whitespace does not show after the runs of
    whitespace are collapsed. *)
Lemma collapse_whitespace_map (f : char -> char) in_run s :
  (forall c, is_space (f c) = is_space c) ->
  (forall c, is_space c = false -> f c = c) ->
  collapse_whitespace in_run (map f s) = collapse_whitespace in_run s.
Proof.
  intros Hsp Hid. revert in_run.
  induction s as [|c s IH]; intros in_run; [reflexivity|].
  cbn [map collapse_whitespace]. rewrite Hsp.
  destruct (is_space c) eqn:E.
  - destruct in_run; rewrite IH; reflexivity.
  - rewrite (Hid c E), IH. reflexivity.
Qed.

Lemma collapse_replace c in_run s :
  is_space c = true ->
  collapse_whitespace in_run (str_replace [c] [space] s)
  = collapse_whitespace in_run s.
Proof.
  intros Hc. cbn [str_replace]. rewrite replace_one_char.
  apply collapse_whitespace_map.
  - intros x. destruct (N.eqb_spec c x) as [<- | _]; [|reflexivity].
    rewrite Hc. apply space_is_space.
  - intros x Hx. destruct (N.eqb_spec c x) as [<- | _]; [|reflexivity].
    congruence.
Qed.

(** X26: the three literal replacements of the detail page change
    nothing in what is shown: the text of a cell is what stripping and
    the collapsing of whitespace runs make of it, because line feeds and
    carriage returns are whitespace and the pair "\r\n" can no longer
    occur when the third replacement looks for it. *)
Theorem replacements_are_redundant text :
  str_replace [carriage_return; newline] [space]
    (str_replace [carriage_return] [space]
       (str_replace [newline] [space] text))
  = str_replace [carriage_return] [space]
      (str_replace [newline] [space] text) /\
  clean_text text = str_strip (collapse_whitespace false text).
Proof.
  assert (Hthird : forall t,
             str_replace [carriage_return; newline] [space]
               (str_replace [carriage_return] [space] t)
             = str_replace [carriage_return] [space] t).
  { intros t. cbn [str_replace]. apply replace_absent.
    rewrite replace_one_char, in_map_iff. intros (x & Hx & _).
    destruct (N.eqb_spec carriage_return x); [discriminate Hx|].
    congruence. }
  split; [apply Hthird|].
  unfold clean_text. rewrite Hthird.
  rewrite (collapse_replace carriage_return false _ eq_refl).
  rewrite (collapse_replace newline false _ eq_refl). reflexivity.
Qed.

(** X27: the text shown in a cell of the detail table holds no line
    feed, no carriage return and no whitespace other than single spaces
    between other characters: every whitespace character in it is a
    space, no two spaces are adjacent, and it neither starts nor ends
    with whitespace.  A missing cell is shown as the empty text. *)
Theorem clean_text_shape text :
  Forall (fun c => is_space c = true -> c = space) (clean_text text) /\
  no_adjacent space (clean_text text) /\
  trimmed is_space (clean_text text) /\
  ~ In newline (clean_text text) /\
  ~ In carriage_return (clean_text text) /\
  clean_text (filled_text NaN) = [].
Proof.
  unfold clean_text.
  set (replaced := str_replace _ _ (str_replace _ _ (str_replace _ _ text))).
  set (joined := collapse_whitespace false replaced).
  destruct (strip_with_spec is_space joined) as [(pre & post & Hmid) Htrim].
  fold (str_strip joined) in Hmid, Htrim.
  assert (Hchars : Forall (fun c => is_space c = true -> c = space)
                          (str_strip joined)).
  { pose proof (collapse_whitespace_chars false replaced) as H.
    fold joined in H. rewrite Hmid in H.
    apply Forall_app in H. destruct H as [_ H].
    apply Forall_app in H. destruct H as [H _].
    eapply Forall_impl; [|exact H].
    intros c [Hc | Hc] Hs; [exact Hc | congruence]. }
  assert (Hruns : no_adjacent space (str_strip joined)).
  { pose proof (proj1 (collapse_whitespace_runs false replaced)) as H.
    fold joined in H. rewrite Hmid in H.
    apply no_adjacent_app in H. destruct H as [_ H].
    apply no_adjacent_app in H. destruct H as [H _]. exact H. }
  rewrite Forall_forall in Hchars.
  split; [rewrite Forall_forall; exact Hchars|].
  split; [exact Hruns|]. split; [exact Htrim|]. split; [|split].
  - intros H. specialize (Hchars newline H eq_refl). discriminate.
  - intros H. specialize (Hchars carriage_return H eq_refl). discriminate.
  - reflexivity.
Qed.

Lemma map_nth_seq {A} (l : list A) (d : A) start :
  map (fun j => nth j l d) (seq start (length l - start)) = skipn start l.
Proof.
  revert start. induction l as [|a l IH]; intros start.
  - cbn. destruct start; reflexivity.
  - destruct start as [|start].
    + cbn [length Nat.sub seq map nth skipn]. f_equal.
      rewrite <- seq_shift, map_map. cbn [nth].
      specialize (IH 0). rewrite Nat.sub_0_r in IH. exact IH.
    + cbn [length Nat.sub skipn]. rewrite <- seq_shift, map_map. cbn [nth].
      apply IH.
Qed.

(** X28: the detail table has one row for each row of the entry and
    every row has one cell for each column shown.  The first column,
    which holds the title, is hidden exactly when the frame has other
    columns: the columns shown are then all the others, in order, and a
    frame with a single column shows that column. *)
Theorem display_frame_shape df :
  length (display_rows (display_frame df)) = len df /\
  Forall (fun cells => length cells
                       = length (display_columns (display_frame df)))
         (display_rows (display_frame df)) /\
  display_columns (display_frame df)
  = match other_columns df with
    | [] => [first_column df]
    | _ :: _ => other_columns df
    end.
Proof.
  unfold display_frame, len. cbn [display_rows display_columns].
  split; [apply length_map|]. split.
  - rewrite Forall_map. apply Forall_forall. intros row _.
    rewrite !length_map. reflexivity.
  - unfold shown_columns. destruct (other_columns df) as [|c cs] eqn:E.
    + unfold columns. rewrite E. reflexivity.
    + replace (1 <? length (columns df)) with true
        by (unfold columns; rewrite E; reflexivity).
      rewrite (map_nth_seq (columns df) [] 1). unfold columns. rewrite E.
      reflexivity.
Qed.
End TableFacts.

(** ** Search results *)

Section MoreSearchFacts.
Context {rt : PyRuntime}.

Lemma search_loop_accepted query_lower chunks results :
  search_loop query_lower chunks results
  = results ++ filter (accepted query_lower) chunks.
Proof.
  revert results. induction chunks as [|e chunks IH]; intros results;
    cbn [search_loop filter].
  - rewrite app_nil_r. reflexivity.
  - unfold accepted at 1.
    destruct (chunk_matches query_lower e) as [[|]|err]; rewrite IH;
      [rewrite <- app_assoc|..]; reflexivity.
Qed.

(** X29: whatever the query, valid pattern or not, the results of a
    search are entries of the snapshot, each at most once and in snapshot
    order: they are the snapshot filtered by the test of one chunk.  An
    entry whose title contains the folded query is always among them,
    and a query that is blank once stripped has no result. *)
Theorem search_is_a_filter q chunks :
  search q chunks
  = match str_strip q with
    | [] => []
    | _ :: _ => filter (accepted (str_lower (str_strip q))) chunks
    end /\
  (forall e, str_strip q <> [] -> In e chunks ->
             contains (str_lower (str_strip q)) (str_lower (title e)) = true ->
             In e (search q chunks)).
Proof.
  assert (H : search q chunks
              = match str_strip q with
                | [] => []
                | _ :: _ => filter (accepted (str_lower (str_strip q))) chunks
                end).
  { unfold search. destruct (str_strip q) as [|c query]; [reflexivity|].
    rewrite search_loop_accepted. reflexivity. }
  split; [exact H|]. intros e Hq He Ht. rewrite H.
  destruct (str_strip q) as [|c query]; [congruence|].
  apply filter_In. split; [exact He|].
  unfold accepted, chunk_matches. rewrite Ht. reflexivity.
Qed.
End MoreSearchFacts.

(** ** Further closed evaluations *)

(** X2 on a verb file written in Shift-JIS. *)
Lemma first_encoding_witness :
  file shift_jis_world VERB_CSV_PATH = shift_jis_file suru_verbs /\
  fst (load_csv_data shift_jis_world VERB_CSV_PATH initial_state)
  = Return suru_verbs.
Proof.
  split; [reflexivity|].
  apply (proj2 (load_csv_data_takes_first_encoding shift_jis_world
                  VERB_CSV_PATH _ initial_state suru_verbs eq_refl)).
  exists [utf_8; utf_8_sig], shift_jis, [cp932; latin_1].
  split; [reflexivity|]. split; [|reflexivity].
  intros e d [<- | [<- | []]]; discriminate.
Defined.

(** X4 on the two files that both hold the title "suru". *)
Lemma verbs_first_witness :
  match load_data (rt := ascii_runtime) suru_world initial_state with
  | (Return chunks, _) =>
      map source chunks = [py "verb"; py "adjective"]
  | (Raise _, _) => False
  end.
Proof.
  destruct (load_data (rt := ascii_runtime) suru_world initial_state)
    as [[chunks | e] s'] eqn:E.
  - destruct (load_data_verbs_first (rt := ascii_runtime) suru_world
                initial_state chunks s' E)
      as (_ & verbs & adjectives & _ & _ & _ & _ & _).
    vm_compute in E. inversion E; subst chunks. reflexivity.
  - vm_compute in E. discriminate E.
Defined.

(** X5 on a good verb file beside a broken adjective file. *)
Lemma all_or_nothing_witness :
  file half_broken_world ADJECTIVE_CSV_PATH = broken_file /\
  unreadable (fun _ => OtherReadError) /\
  fst (load_data (rt := ascii_runtime) half_broken_world initial_state)
  = Raise ValueError.
Proof.
  assert (Hbad : unreadable (fun _ => OtherReadError)).
  { intros encoding df. discriminate. }
  split; [reflexivity|]. split; [exact Hbad|].
  exact (load_data_all_or_nothing (rt := ascii_runtime) half_broken_world
           initial_state ADJECTIVE_CSV_PATH _ eq_refl Hbad).
Defined.

(** X8 on five rows. *)
Lemma count_witness :
  exists entries,
    split_data_into_chunks (rt := ascii_runtime)
      (one_column "word" ["A"; "b"; "c"; "d"; "a"]) (py "verb")
    = Return entries /\
    length entries = 2.
Proof.
  eexists. split; [vm_compute; reflexivity|].
  exact (split_data_into_chunks_count (rt := ascii_runtime)
           (one_column "word" ["A"; "b"; "c"; "d"; "a"]) (py "verb") _
           eq_refl).
Defined.

(** X9 on the second group of five rows, under an empty tag. *)
Lemma entry_witness :
  exists entries e,
    split_data_into_chunks (rt := ascii_runtime)
      (one_column "word" ["A"; "b"; "c"; "d"; " Kaku-Rei "]) []
    = Return entries /\
    nth_error entries 1 = Some e /\
    title e = py "Kaku-Rei" /\
    slug e = py "kaku-rei".
Proof.
  eexists. eexists.
  split; [vm_compute; reflexivity|]. split; [reflexivity|].
  destruct (entry_made_from_first_row (rt := ascii_runtime)
              (one_column "word" ["A"; "b"; "c"; "d"; " Kaku-Rei "]) []
              _ 1 _ eq_refl eq_refl) as (Ht & _ & _ & _ & _ & Hs).
  split; [exact Ht | exact Hs].
Defined.

(** X12: a refresh stamped at 100, read again at 650. *)
Lemma read_after_refresh_witness :
  exists chunks,
    fst (load_data (rt := ascii_runtime) (suru_world_at 0 100) initial_state)
    = Return chunks /\
    (current_time (suru_world_at 650 0)
     - refresh_time (suru_world_at 0 100) < CACHE_TTL)%Q /\
    fst (get_all_chunks (rt := ascii_runtime) (suru_world_at 650 0)
           (snd (_refresh_cache (rt := ascii_runtime) (suru_world_at 0 100)
                                initial_state)))
    = Return chunks.
Proof.
  eexists. split; [vm_compute; reflexivity|].
  assert (Hage : (current_time (suru_world_at 650 0)
                  - refresh_time (suru_world_at 0 100) < CACHE_TTL)%Q).
  { unfold Qlt. cbn. lia. }
  split; [exact Hage|].
  destruct (read_after_refresh (rt := ascii_runtime) (suru_world_at 0 100)
              (suru_world_at 650 0) initial_state _ eq_refl Hage)
    as [_ Hread].
  rewrite Hread. reflexivity.
Defined.

Lemma stale_at now :
  (CACHE_TTL <= now)%Q -> (now < CACHE_TTL * 2)%Q ->
  in_stale_window (empty_world now) (warm_state [abc_entry]).
Proof.
  intros Hlo Hhi. unfold in_stale_window, cache_age. cbn.
  unfold Qminus. cbn. rewrite Qplus_0_r. split; assumption.
Qed.

(** X13 on reads at ages 700, 800 and 900. *)
Lemma single_flight_witness :
  journal (after (rt := ascii_runtime)
             (map Read [empty_world 700; empty_world 800; empty_world 900])
             (warm_state [abc_entry]))
  = [ThreadStart].
Proof.
  rewrite (stale_reads_start_one_thread (rt := ascii_runtime)
             (empty_world 700) [empty_world 800; empty_world 900]
             (warm_state [abc_entry]) [abc_entry] eq_refl eq_refl).
  - reflexivity.
  - intros w0 [<- | [<- | [<- | []]]]; apply stale_at;
      unfold Qle, Qlt; cbn; lia.
Defined.

(** X14 with both files gone when the thread runs. *)
Lemma retry_witness :
  _cache_loading
    (after (rt := ascii_runtime)
       [Read (empty_world 700); ThreadRuns (empty_world 701)]
       (warm_state [abc_entry])) = false /\
  _cache_loading
    (after (rt := ascii_runtime)
       [Read (empty_world 700); ThreadRuns (empty_world 701);
        Read (empty_world 800)]
       (warm_state [abc_entry])) = true.
Proof.
  destruct (failed_refresh_is_retried (rt := ascii_runtime)
              (empty_world 700) (empty_world 701) (empty_world 800)
              (warm_state [abc_entry]) [abc_entry]
              (FileNotFoundError NoCsvFilesFound) eq_refl eq_refl)
    as (Hdown & _ & _ & Hup).
  - apply stale_at; unfold Qle, Qlt; cbn; lia.
  - reflexivity.
  - apply stale_at; unfold Qle, Qlt; cbn; lia.
  - split; [exact Hdown|]. rewrite Hup. reflexivity.
Defined.

(** X16 on a process just imported, both files in place. *)
Lemma cold_start_loads_witness :
  exists chunks,
    fst (load_data (rt := ascii_runtime) suru_world initial_state)
    = Return chunks /\
    _cache_data (snd (ensure_initialized (rt := ascii_runtime) suru_world 3
                                         initial_state))
    = Some chunks.
Proof.
  eexists. split; [vm_compute; reflexivity|].
  exact (proj1 (proj2 (proj2
           (cold_start_loads (rt := ascii_runtime) suru_world 3
              initial_state _ eq_refl eq_refl eq_refl)))).
Defined.

(** X19 with both files gone for good. *)
Lemma never_lost_witness :
  _cache_data (warm_state [abc_entry]) <> None /\
  exists chunks,
    fst (get_all_chunks (rt := ascii_runtime) (empty_world 9000)
           (after (rt := ascii_runtime)
              [Read (empty_world 5000); ThreadRuns (empty_world 6000)]
              (warm_state [abc_entry])))
    = Return chunks.
Proof.
  assert (H : _cache_data (warm_state [abc_entry]) <> None) by discriminate.
  split; [exact H|].
  exact (proj2 (snapshot_never_lost (rt := ascii_runtime)
                  [Read (empty_world 5000); ThreadRuns (empty_world 6000)]
                  (warm_state [abc_entry]) H) (empty_world 9000)).
Defined.

Lemma cold_is_warm_enough :
  _initialized initial_state = true -> _cache_data initial_state <> None.
Proof. discriminate. Qed.


(** X21: the first request of a process is a health check, 7.5 seconds
    after the snapshot it loads is stamped. *)
Lemma health_reply_witness :
  fst (health (rt := ascii_runtime) GET suru_world
              (suru_world_at (15 # 2) 0) 0 initial_state)
  = Return (CacheAge 7).
Proof.
  destruct (health_reply (rt := ascii_runtime) suru_world
              (suru_world_at (15 # 2) 0) 0 initial_state
              cold_is_warm_enough) as (_ & R & _).
  change (fst (ensure_initialized (rt := ascii_runtime) suru_world 0
                                  initial_state))
    with (@Return unit tt) in R.
  rewrite R. reflexivity.
Defined.


(** X25 on a snapshot of two entries. *)
Lemma round_trip_witness :
  NoDup (map slug [abc_entry; gap_entry]) /\
  find_chunk (slug gap_entry) [abc_entry; gap_entry] = Some gap_entry.
Proof.
  assert (H : NoDup (map slug [abc_entry; gap_entry])).
  { constructor; [|constructor; [intros [] | constructor]].
    intros [H | []]. discriminate H. }
  split; [exact H|].
  apply (find_chunk_round_trip [abc_entry; gap_entry] gap_entry H).
  right. left. reflexivity.
Defined.
